(** * Multi-account CDK CI/CD pipeline: deployment topology and Lambda handlers

    A shallow embedding of

    - [cdk/lib/cdk-pipeline-stack.ts]: the [AppStage] stage and the
      [CdkPipelineStack] stack that assembles the pipeline, its waves, the
      access-log bucket and the access-logging wiring;
    - the GraphQL-backed Lambda entry point (handler A);
    - the diagnostic Lambda entry point (handler B).

    The TypeScript constructors mutate framework objects (the pipeline, its
    waves, the CloudFormation buckets) through references.  They are modelled
    in a state-and-exception monad over a [World] that holds those objects in
    heaps addressed by reference, so that aliasing is kept. *)

From Stdlib Require Import ZArith Lia Ascii.
From Stdlib Require DecimalString DecimalPos DecimalZ.
From stdpp Require Import base option list strings gmap.

(** ** Exceptions and the construction monad *)

Inductive Exn :=
| Error (msg : string)
| TypeError (msg : string).

Inductive Result (A : Type) :=
| Ok (a : A)
| Throw (e : Exn).
Arguments Ok {A} a.
Arguments Throw {A} e.

Module Cdk.

(** *** Framework values

    A string handed to CloudFormation is either a literal or an unresolved
    token that stands for an attribute of a resource (its [Ref]), known only
    at deployment. *)

Inductive CfnString :=
| Lit (s : string)
| RefToken (path : list string).

Record Environment := {
  account : string;
  region : string
}.

(** The four flags of [BlockPublicAccess]. *)
Record BlockPublicAccess := {
  blockPublicAcls : bool;
  blockPublicPolicy : bool;
  ignorePublicAcls : bool;
  restrictPublicBuckets : bool
}.

Definition BLOCK_ALL : BlockPublicAccess :=
  {| blockPublicAcls := true; blockPublicPolicy := true;
     ignorePublicAcls := true; restrictPublicBuckets := true |}.

Definition BLOCK_ACLS : BlockPublicAccess :=
  {| blockPublicAcls := true; blockPublicPolicy := false;
     ignorePublicAcls := true; restrictPublicBuckets := false |}.

Inductive BucketEncryption :=
| UNENCRYPTED
| KMS_MANAGED
| S3_MANAGED
| KMS.

Inductive RemovalPolicy :=
| DESTROY
| RETAIN
| SNAPSHOT.

Record BucketProps := {
  bp_bucketName : option string;
  bp_blockPublicAccess : option BlockPublicAccess;
  bp_encryption : option BucketEncryption;
  bp_enforceSSL : option bool;
  bp_removalPolicy : option RemovalPolicy;
  bp_autoDeleteObjects : option bool
}.

Record LoggingConfiguration := {
  destinationBucketName : CfnString;
  logFilePrefix : string
}.

(** The L1 resource behind a bucket; the only property the stack assigns is
    [loggingConfiguration]. *)
Record CfnBucket := {
  loggingConfiguration : option LoggingConfiguration
}.

(** References into the heaps of the [World]. *)
Abbreviation ref := nat (only parsing).

Record Bucket := {
  b_id : string;
  b_props : option BucketProps;      (* [None] for a bucket the framework creates itself *)
  bucketName : CfnString;
  defaultChild : option ref          (* [bucket.node.defaultChild], a CfnBucket *)
}.

(** A child of the application scope, as far as the stack inspects it: the
    name of its class and, for cross-region support stacks, the replication
    bucket. *)
Record Construct := {
  constructorName : string;
  c_id : string;
  replicationBucket : option Bucket
}.

(** A GitHub source, as the arguments it was made from.  The constructor
    [gitHub] records the arguments of [CodePipelineSource.gitHub] and does
    not check them; the check the framework makes on the repository string
    is [gitHub_source] below.  On a string that fails the check the framework
    throws before the pipeline is made, so the properties of the source step
    are stated for strings that pass it. *)
Inductive CodePipelineSource :=
| gitHub (repoString : string) (branch : string).

(** The number of slashes in a string. *)
Fixpoint slashes (s : string) : nat :=
  match s with
  | EmptyString => 0
  | String c rest => (if Ascii.eqb c "/"%char then 1 else 0) + slashes rest
  end.

(** [CodePipelineSource.gitHub(repoString, branch)] of the framework: the
    repository string must split at its slashes into exactly two parts,
    owner and repository, or the call throws. *)
Definition gitHub_source (repoString branch : string) : Result CodePipelineSource :=
  if slashes repoString =? 1
  then Ok (gitHub repoString branch)
  else Throw (Error ("GitHub repository name should be a resolved string like '<owner>/<repo>', got '"
                     +:+ repoString +:+ "'")).

Inductive Step :=
| ShellStep (id : string) (input : CodePipelineSource) (commands : list string)
| ManualApprovalStep (id : string).

Record WaveOptions := {
  pre : list Step;
  post : list Step
}.

(** A stage as the pipeline sees it when it is added to a wave. *)
Record StageDeployment := {
  sd_stageName : string;
  sd_env : option Environment
}.

Record Wave := {
  wave_id : string;
  wave_pre : list Step;
  wave_post : list Step;
  wave_stages : list StageDeployment
}.

(** One wave of the materialised deployment graph. *)
Record GraphWave := {
  gw_id : string;
  gw_pre : list Step;
  gw_stages : list string;
  gw_post : list Step
}.

Record CodePipelineProps := {
  enableKeyRotation : bool;
  crossAccountKeys : bool;
  pipelineName : string;
  synth : Step
}.

(** The underlying [codepipeline.Pipeline], which exists once the pipeline
    has been built. *)
Record Pipeline := {
  artifactBucket : Bucket;
  graph : list GraphWave
}.

Record CodePipeline := {
  cp_id : string;
  cp_props : CodePipelineProps;
  cp_waves : list ref;               (* [this.waves], references to Wave objects *)
  cp_built : option Pipeline         (* [None] until [buildPipeline] has run *)
}.

Record NagPackSuppression := {
  nag_id : string;
  nag_reason : string
}.

(** *** The world a stack constructor runs in *)

Record World := {
  appChildren : list Construct;      (* [scope.node.children] *)
  stackChildren : list string;       (* ids of [this.node.children], in construction order *)
  waves : list Wave;                 (* heap of Wave objects *)
  cfnBuckets : list CfnBucket;       (* heap of CfnBucket objects *)
  pipelines : list CodePipeline;     (* heap of CodePipeline objects *)
  suppressions : list NagPackSuppression
}.

Definition M (A : Type) : Type := World -> Result (A * World).

Definition ret {A} (a : A) : M A := fun w => Ok (a, w).

Definition bind {A B} (m : M A) (k : A -> M B) : M B :=
  fun w => match m w with
           | Ok (a, w') => k a w'
           | Throw e => Throw e
           end.

Definition throw {A} (e : Exn) : M A := fun _ => Throw e.

Definition get : M World := fun w => Ok (w, w).

Definition put (w : World) : M unit := fun _ => Ok (tt, w).

Notation "x <- m ;; k" := (bind m (fun x => k))
  (at level 100, m at next level, right associativity).
Notation "m ;;; k" := (bind m (fun _ => k))
  (at level 100, right associativity).

(** Field updates of the world. *)
Definition with_appChildren (v : list Construct) (w : World) : World :=
  {| appChildren := v; stackChildren := stackChildren w; waves := waves w;
     cfnBuckets := cfnBuckets w; pipelines := pipelines w;
     suppressions := suppressions w |}.

Definition with_stackChildren (v : list string) (w : World) : World :=
  {| appChildren := appChildren w; stackChildren := v; waves := waves w;
     cfnBuckets := cfnBuckets w; pipelines := pipelines w;
     suppressions := suppressions w |}.

Definition with_waves (v : list Wave) (w : World) : World :=
  {| appChildren := appChildren w; stackChildren := stackChildren w; waves := v;
     cfnBuckets := cfnBuckets w; pipelines := pipelines w;
     suppressions := suppressions w |}.

Definition with_cfnBuckets (v : list CfnBucket) (w : World) : World :=
  {| appChildren := appChildren w; stackChildren := stackChildren w;
     waves := waves w; cfnBuckets := v; pipelines := pipelines w;
     suppressions := suppressions w |}.

Definition with_pipelines (v : list CodePipeline) (w : World) : World :=
  {| appChildren := appChildren w; stackChildren := stackChildren w;
     waves := waves w; cfnBuckets := cfnBuckets w; pipelines := v;
     suppressions := suppressions w |}.

Definition with_suppressions (v : list NagPackSuppression) (w : World) : World :=
  {| appChildren := appChildren w; stackChildren := stackChildren w;
     waves := waves w; cfnBuckets := cfnBuckets w; pipelines := pipelines w;
     suppressions := v |}.

(** Reading a property of [undefined] raises a TypeError. *)
Definition defined {A} (what : string) (o : option A) : M A :=
  match o with
  | Some a => ret a
  | None => throw (TypeError ("Cannot read properties of undefined: " +:+ what))
  end.

(** *** Framework operations

    The provisioning framework is an external collaborator.  Its operations
    are modelled as far as the stack uses them: a construct registers itself
    under its id in its scope, a pipeline collects waves, a wave collects
    stages, and building the pipeline materialises the graph, the artifact
    bucket and the cross-region support stacks. *)

(** [new Construct(this, id)]: ids are unique within a scope. *)
Definition addChild (id : string) : M unit :=
  w <- get ;;
  if bool_decide (id ∈ stackChildren w)
  then throw (Error ("There is already a Construct with name '" +:+ id +:+ "'"))
  else put (with_stackChildren (stackChildren w ++ [id]) w).

Definition new_CfnBucket : M ref :=
  w <- get ;;
  put (with_cfnBuckets (cfnBuckets w ++ [{| loggingConfiguration := None |}]) w) ;;;
  ret (length (cfnBuckets w)).

(** [cfn.loggingConfiguration = cfg] on the object behind reference [r]. *)
Definition set_loggingConfiguration (r : ref) (cfg : LoggingConfiguration) : M unit :=
  w <- get ;;
  _ <- defined "loggingConfiguration" (cfnBuckets w !! r) ;;
  put (with_cfnBuckets (<[r := {| loggingConfiguration := Some cfg |}]> (cfnBuckets w)) w).

(** [CustomResourceProvider.getOrCreateProvider(stack, type)]: a stack has
    one provider per resource type, created on first use as a child of the
    stack. *)
Definition getOrCreateProvider (id : string) : M unit :=
  w <- get ;;
  if bool_decide (id ∈ stackChildren w)
  then ret tt
  else put (with_stackChildren (stackChildren w ++ [id]) w).

(** [new Bucket(this, id, props)].  [bucket.bucketName] is a token for the
    resource, resolved at deployment.  [autoDeleteObjects] is refused unless
    the removal policy is [DESTROY]; when it is set, the stack also gets the
    provider of the custom resource that empties the bucket. *)
Definition new_Bucket (stack : string) (id : string) (props : BucketProps) : M Bucket :=
  addChild id ;;;
  let bucket r :=
    {| b_id := id; b_props := Some props;
       bucketName := RefToken [stack; id; "Resource"];
       defaultChild := Some r |} in
  match bp_autoDeleteObjects props, bp_removalPolicy props with
  | Some true, Some DESTROY =>
      r <- new_CfnBucket ;;
      getOrCreateProvider "Custom::S3AutoDeleteObjectsCustomResourceProvider" ;;;
      ret (bucket r)
  | Some true, _ =>
      throw (Error "Cannot use 'autoDeleteObjects' property on a bucket without setting removal policy to 'DESTROY'.")
  | _, _ =>
      r <- new_CfnBucket ;;
      ret (bucket r)
  end.

Definition addStackSuppressions (l : list NagPackSuppression) : M unit :=
  w <- get ;;
  put (with_suppressions (suppressions w ++ l) w).

Definition new_CodePipeline (id : string) (props : CodePipelineProps) : M ref :=
  addChild id ;;;
  w <- get ;;
  put (with_pipelines
         (pipelines w ++ [{| cp_id := id; cp_props := props;
                             cp_waves := []; cp_built := None |}]) w) ;;;
  ret (length (pipelines w)).

(** Modelled from the spec: [pipeline.addWave(id, options)] is the
    framework's.  A new, empty wave with the given pre-conditions is appended
    to the pipeline's waves and returned by reference; waves cannot be added
    once the pipeline has been built. *)
Definition addWave (p : ref) (id : string) (options : option WaveOptions) : M ref :=
  w <- get ;;
  cp <- defined "addWave" (pipelines w !! p) ;;
  match cp_built cp with
  | Some _ =>
      throw (Error "addWave: can't add Waves anymore after buildPipeline() has been called")
  | None =>
      let wv := {| wave_id := id;
                   wave_pre := from_option pre [] options;
                   wave_post := from_option post [] options;
                   wave_stages := [] |} in
      let r := length (waves w) in
      put (with_pipelines
             (<[p := {| cp_id := cp_id cp; cp_props := cp_props cp;
                        cp_waves := cp_waves cp ++ [r];
                        cp_built := None |}]> (pipelines w))
             (with_waves (waves w ++ [wv]) w)) ;;;
      ret r
  end.

(** Modelled from the spec: [wave.addStage(stage)] is the framework's.  The
    stage is appended to the stages of the wave object. *)
Definition addStage (wv : ref) (stage : StageDeployment) : M unit :=
  w <- get ;;
  x <- defined "addStage" (waves w !! wv) ;;
  put (with_waves
         (<[wv := {| wave_id := wave_id x; wave_pre := wave_pre x;
                     wave_post := wave_post x;
                     wave_stages := wave_stages x ++ [stage] |}]> (waves w)) w).

(** Modelled from the spec: the materialisation of the deployment graph is
    the framework's.  The waves execute in the order added: each wave object
    is read through its reference as it stands when the graph is built, in
    the order of [this.waves]. *)
Fixpoint materialise (rs : list ref) : M (list GraphWave) :=
  match rs with
  | [] => ret []
  | r :: rs' =>
      w <- get ;;
      x <- defined "wave" (waves w !! r) ;;
      g <- materialise rs' ;;
      ret ({| gw_id := wave_id x; gw_pre := wave_pre x;
              gw_stages := sd_stageName <$> wave_stages x;
              gw_post := wave_post x |} :: g)
  end.

(** One support stack with a replication bucket per region the framework
    decides to replicate artifacts to; each becomes a child of the
    application scope, under the class name CrossRegionSupportStack.  The
    ids and paths given to them here are schematic: the framework derives
    them from account and region, and the stack never reads them. *)
Fixpoint createSupportStacks (regions : list string) : M unit :=
  match regions with
  | [] => ret tt
  | rg :: regions' =>
      r <- new_CfnBucket ;;
      w <- get ;;
      let name := "cross-region-stack-" +:+ rg in
      put (with_appChildren
             (appChildren w ++
              [{| constructorName := "CrossRegionSupportStack";
                  c_id := name;
                  replicationBucket :=
                    Some {| b_id := "CrossRegionCodePipelineReplicationBucket";
                            b_props := None;
                            bucketName := RefToken [name; "CrossRegionCodePipelineReplicationBucket"; "Resource"];
                            defaultChild := Some r |} |}]) w) ;;;
      createSupportStacks regions'
  end.

(** Modelled from the spec: [pipeline.buildPipeline()] is the framework's
    finalisation step.  It materialises the deployment graph, creates the
    artifact bucket, and creates the cross-region support stacks; it can run
    once.  Which regions need support is the framework's decision and is
    taken as the input [supportRegions]. *)
Definition buildPipeline (stack : string) (p : ref) (supportRegions : list string) : M unit :=
  w <- get ;;
  cp <- defined "buildPipeline" (pipelines w !! p) ;;
  match cp_built cp with
  | Some _ =>
      throw (Error "build() has already been called: can only call it once")
  | None =>
      g <- materialise (cp_waves cp) ;;
      r <- new_CfnBucket ;;
      createSupportStacks supportRegions ;;;
      w' <- get ;;
      let ab := {| b_id := "ArtifactsBucket"; b_props := None;
                   bucketName := RefToken [stack; cp_id cp; "Pipeline"; "ArtifactsBucket"; "Resource"];
                   defaultChild := Some r |} in
      put (with_pipelines
             (<[p := {| cp_id := cp_id cp; cp_props := cp_props cp;
                        cp_waves := cp_waves cp;
                        cp_built := Some {| artifactBucket := ab; graph := g |} |}]>
                (pipelines w')) w')
  end.

(** The getter [codePipeline.pipeline]. *)
Definition pipeline (p : ref) : M Pipeline :=
  w <- get ;;
  cp <- defined "pipeline" (pipelines w !! p) ;;
  match cp_built cp with
  | Some pl => ret pl
  | None => throw (Error "Pipeline not created yet")
  end.

End Cdk.

(** ** The provider stacks

    [./vpc-stack], [./rds-stack] and [./api-stack] are imported by the
    pipeline stack but are not among the sources. *)

Module Providers.

(** A database instance handle ([IDatabaseInstance]). *)
#[warnings="-register-all"]
Inductive IDatabaseInstance :=
| DatabaseInstance (stage : string) (replicaOf : option IDatabaseInstance).

(** Modelled from the spec: the network topology provider ([VpcStack]) is
    missing; it supplies a virtual network and a security group, named here
    after the stage they belong to. *)
Record VpcStack := {
  vpc : string;
  ingressSecurityGroup : string
}.

Definition new_VpcStack (stage : string) : VpcStack :=
  {| vpc := stage +:+ "/VPCStack/vpc";
     ingressSecurityGroup := stage +:+ "/VPCStack/ingressSecurityGroup" |}.

Record RDSStackProps := {
  rp_vpc : string;
  rp_securityGroup : string;
  rp_stage : string;
  rp_secretReplicationRegions : list string;
  rp_primaryRdsInstance : option IDatabaseInstance
}.

(** Modelled from the spec: the relational database provider ([RDSStack])
    is missing; it supplies a managed database instance, created as a
    replica of the primary database handle when one is given, and exposes
    the instance handle. *)
Record RDSStack := {
  rds_props : RDSStackProps;
  postgresRDSInstance : IDatabaseInstance
}.

Definition new_RDSStack (props : RDSStackProps) : RDSStack :=
  {| rds_props := props;
     postgresRDSInstance :=
       DatabaseInstance (rp_stage props) (rp_primaryRdsInstance props) |}.

(** Modelled from the spec: the API provider ([GraphqlApiStack]) is missing;
    it supplies a managed API layer wired to the database's connection
    parameters, which are all read off the database stack. *)
Record GraphqlApiStack := {
  api_vpc : string;
  api_database : IDatabaseInstance
}.

Definition new_GraphqlApiStack (vpc : string) (db : IDatabaseInstance) : GraphqlApiStack :=
  {| api_vpc := vpc; api_database := db |}.

End Providers.

(** ** [cdk/lib/cdk-pipeline-stack.ts] *)

Module PipelineStack.
Import Cdk Providers.

Record AppStageProps := {
  env : option Environment;
  primaryRdsInstance : option IDatabaseInstance;
  secretReplicationRegions : option (list string)
}.

Record AppStage := {
  stageName : string;
  stageEnv : option Environment;
  apiStack : GraphqlApiStack;
  rdsStack : RDSStack
}.

(** The body of the [AppStage] constructor after [super(scope, id, props)]:
    the three provider stacks, wired together. *)
Definition AppStage_body (id : string) (props : option AppStageProps) : AppStage :=
  let vpcStack := new_VpcStack id in
  let rds :=
    new_RDSStack
      {| rp_vpc := vpc vpcStack;
         rp_securityGroup := ingressSecurityGroup vpcStack;
         rp_stage := id;
         rp_secretReplicationRegions := default [] (props ≫= secretReplicationRegions);
         rp_primaryRdsInstance := props ≫= primaryRdsInstance |} in
  let api := new_GraphqlApiStack (vpc vpcStack) (postgresRDSInstance rds) in
  {| stageName := id; stageEnv := props ≫= env;
     apiStack := api; rdsStack := rds |}.

(** [new AppStage(scope, id, props)]: the stage registers itself in the
    scope, then builds its stacks. *)
Definition new_AppStage (id : string) (props : option AppStageProps) : M AppStage :=
  addChild id ;;;
  ret (AppStage_body id props).

(** What a wave records of a stage added to it. *)
Definition deployment (st : AppStage) : StageDeployment :=
  {| sd_stageName := stageName st; sd_env := stageEnv st |}.

(** [process.env.NAME || fallback]: the fallback is taken when the variable
    is unset and also when it is set to the empty string. *)
Definition or_else (v : option string) (fallback : string) : string :=
  match v with
  | Some EmptyString => fallback
  | Some s => s
  | None => fallback
  end.

(** [super(scope, id, props)] of a stack: it becomes a child of the scope. *)
Definition new_Stack (id : string) : M unit :=
  w <- get ;;
  if bool_decide (id ∈ c_id <$> appChildren w)
  then throw (Error ("There is already a Construct with name '" +:+ id +:+ "'"))
  else put (with_appChildren
              (appChildren w ++
               [{| constructorName := "CdkPipelineStack"; c_id := id;
                   replicationBucket := None |}]) w).

(** The loop over [scope.node.children] that adds access logging to the
    cross-region buckets. *)
Fixpoint wireCrossRegion (appChildren : list Construct)
    (acccessLogsBucketNameStr logFilePrefixStr : string) : M unit :=
  match appChildren with
  | [] => ret tt
  | child :: rest =>
      (if bool_decide (constructorName child = "CrossRegionSupportStack")
       then
         bucket <- defined "node" (replicationBucket child) ;;
         crossRegionBucket <- defined "loggingConfiguration" (defaultChild bucket) ;;
         set_loggingConfiguration crossRegionBucket
           {| destinationBucketName := Lit acccessLogsBucketNameStr;
              logFilePrefix := logFilePrefixStr |}
       else ret tt) ;;;
      wireCrossRegion rest acccessLogsBucketNameStr logFilePrefixStr
  end.

(** The locals of the constructor that the properties refer to. *)
Record CdkPipelineStack := {
  pipeline : ref;
  devQaWave : ref;
  primaryRdsRegionWave : ref;
  secondaryRdsRegionWave : ref;
  dev : AppStage;
  qa : AppStage;
  stgPrimary : AppStage;
  prdPrimary : AppStage;
  stgBackup : AppStage;
  prdBackup : AppStage;
  accessLogsBucket : Bucket;
  artifactBucket : ref
}.

(** [new CdkPipelineStack(scope, id, props)], run with the environment
    variables [process_env]. *)
Definition new_CdkPipelineStack (process_env : gmap string string)
    (supportRegions : list string) (id : string) : M CdkPipelineStack :=
  new_Stack id ;;;
  addStackSuppressions
    [{| nag_id := "AwsSolutions-IAM5";
        nag_reason := "Supressing errors originating in external packages." |}] ;;;
  let githubOrg := or_else (process_env !! "GITHUB_ORG") "undefined-github-org" in
  let githubRepo := or_else (process_env !! "GITHUB_REPO") "undefined-github-repo" in
  let githubBranch := or_else (process_env !! "GITHUB_BRANCH") "main" in
  let devAccountId := or_else (process_env !! "DEV_ACCOUNT_ID") "undefined" in
  let stgAccountId := or_else (process_env !! "STG_ACCOUNT_ID") "undefined" in
  let prdAccountId := or_else (process_env !! "PRD_ACCOUNT_ID") "undefined" in
  let primaryRegion := or_else (process_env !! "PRIMARY_REGION") "undefined" in
  let secondaryRegion := or_else (process_env !! "SECONDARY_REGION") "undefined" in
  let acccessLogsBucketNameStr := "MultiAccountAccessLogsBucket" in
  pipeline <- new_CodePipeline "Pipeline"
    {| enableKeyRotation := true;
       crossAccountKeys := true;
       pipelineName := "AwsSamplesPipeline";
       synth := ShellStep "deploy"
                  (gitHub (githubOrg +:+ "/" +:+ githubRepo) githubBranch)
                  ["npm ci"; "npm run build"; "npx cdk synth"] |} ;;
  devQaWave <- addWave pipeline "DEV-and-QA-Deployments" None ;;
  dev <- new_AppStage "dev"
    (Some {| env := Some {| account := devAccountId; region := primaryRegion |};
             primaryRdsInstance := None; secretReplicationRegions := None |}) ;;
  qa <- new_AppStage "qa"
    (Some {| env := Some {| account := devAccountId; region := secondaryRegion |};
             primaryRdsInstance := None; secretReplicationRegions := None |}) ;;
  addStage devQaWave (deployment dev) ;;;
  addStage devQaWave (deployment qa) ;;;
  primaryRdsRegionWave <- addWave pipeline "Primary-DB-Region-Deployments"
    (Some {| pre := [ManualApprovalStep "ProdManualApproval"]; post := [] |}) ;;
  stgPrimary <- new_AppStage "stg-primary"
    (Some {| env := Some {| account := stgAccountId; region := primaryRegion |};
             primaryRdsInstance := None;
             secretReplicationRegions := Some [secondaryRegion] |}) ;;
  prdPrimary <- new_AppStage "prd-primary"
    (Some {| env := Some {| account := prdAccountId; region := primaryRegion |};
             primaryRdsInstance := None;
             secretReplicationRegions := Some [secondaryRegion] |}) ;;
  addStage primaryRdsRegionWave (deployment stgPrimary) ;;;
  addStage primaryRdsRegionWave (deployment prdPrimary) ;;;
  secondaryRdsRegionWave <- addWave pipeline "Secondary-DB-Region-Deployments" None ;;
  stgBackup <- new_AppStage "stg-backup"
    (Some {| env := Some {| account := stgAccountId; region := secondaryRegion |};
             primaryRdsInstance := Some (postgresRDSInstance (rdsStack stgPrimary));
             secretReplicationRegions := None |}) ;;
  prdBackup <- new_AppStage "prd-backup"
    (Some {| env := Some {| account := prdAccountId; region := secondaryRegion |};
             primaryRdsInstance := Some (postgresRDSInstance (rdsStack prdPrimary));
             secretReplicationRegions := None |}) ;;
  addStage secondaryRdsRegionWave (deployment stgBackup) ;;;
  addStage secondaryRdsRegionWave (deployment prdBackup) ;;;
  buildPipeline id pipeline supportRegions ;;;
  accessLogsBucket <- new_Bucket id acccessLogsBucketNameStr
    {| bp_bucketName := None;
       bp_blockPublicAccess := Some BLOCK_ALL;
       bp_encryption := Some S3_MANAGED;
       bp_enforceSSL := Some true;
       bp_removalPolicy := Some DESTROY;
       bp_autoDeleteObjects := Some true |} ;;
  built <- Cdk.pipeline pipeline ;;
  artifactBucket <- defined "loggingConfiguration" (defaultChild (Cdk.artifactBucket built)) ;;
  let logFilePrefixStr := "logs/" in
  set_loggingConfiguration artifactBucket
    {| destinationBucketName := bucketName accessLogsBucket;
       logFilePrefix := logFilePrefixStr |} ;;;
  w <- get ;;
  wireCrossRegion (appChildren w) acccessLogsBucketNameStr logFilePrefixStr ;;;
  ret {| pipeline := pipeline;
         devQaWave := devQaWave;
         primaryRdsRegionWave := primaryRdsRegionWave;
         secondaryRdsRegionWave := secondaryRdsRegionWave;
         dev := dev; qa := qa;
         stgPrimary := stgPrimary; prdPrimary := prdPrimary;
         stgBackup := stgBackup; prdBackup := prdBackup;
         accessLogsBucket := accessLogsBucket;
         artifactBucket := artifactBucket |}.

(** The world before the constructor runs: the application scope with the
    children it already has, and the CloudFormation buckets they own. *)
Definition initial (scope : list Construct) (buckets : list CfnBucket) : World :=
  {| appChildren := scope; stackChildren := []; waves := [];
     cfnBuckets := buckets; pipelines := []; suppressions := [] |}.

End PipelineStack.

(** ** The outcome of the stack constructor in closed form

    The values below describe what [new_CdkPipelineStack] returns and the
    world it leaves; [constructor_run] proves that they are what the
    constructor computes. *)

Module Synthesis.
Import Cdk Providers PipelineStack.

(** The values of the constants read from the environment. *)
Record Settings := {
  githubOrg : string;
  githubRepo : string;
  githubBranch : string;
  devAccountId : string;
  stgAccountId : string;
  prdAccountId : string;
  primaryRegion : string;
  secondaryRegion : string
}.

Definition settings (process_env : gmap string string) : Settings :=
  {| githubOrg := or_else (process_env !! "GITHUB_ORG") "undefined-github-org";
     githubRepo := or_else (process_env !! "GITHUB_REPO") "undefined-github-repo";
     githubBranch := or_else (process_env !! "GITHUB_BRANCH") "main";
     devAccountId := or_else (process_env !! "DEV_ACCOUNT_ID") "undefined";
     stgAccountId := or_else (process_env !! "STG_ACCOUNT_ID") "undefined";
     prdAccountId := or_else (process_env !! "PRD_ACCOUNT_ID") "undefined";
     primaryRegion := or_else (process_env !! "PRIMARY_REGION") "undefined";
     secondaryRegion := or_else (process_env !! "SECONDARY_REGION") "undefined" |}.

Definition stage (id account region : string)
    (primary : option IDatabaseInstance) (replication : option (list string)) : AppStage :=
  AppStage_body id
    (Some {| env := Some {| account := account; region := region |};
             primaryRdsInstance := primary;
             secretReplicationRegions := replication |}).

Definition the_dev (c : Settings) : AppStage :=
  stage "dev" (devAccountId c) (primaryRegion c) None None.
Definition the_qa (c : Settings) : AppStage :=
  stage "qa" (devAccountId c) (secondaryRegion c) None None.
Definition the_stgPrimary (c : Settings) : AppStage :=
  stage "stg-primary" (stgAccountId c) (primaryRegion c) None (Some [secondaryRegion c]).
Definition the_prdPrimary (c : Settings) : AppStage :=
  stage "prd-primary" (prdAccountId c) (primaryRegion c) None (Some [secondaryRegion c]).
Definition the_stgBackup (c : Settings) : AppStage :=
  stage "stg-backup" (stgAccountId c) (secondaryRegion c)
        (Some (postgresRDSInstance (rdsStack (the_stgPrimary c)))) None.
Definition the_prdBackup (c : Settings) : AppStage :=
  stage "prd-backup" (prdAccountId c) (secondaryRegion c)
        (Some (postgresRDSInstance (rdsStack (the_prdPrimary c)))) None.

Definition the_waves (c : Settings) : list Wave :=
  [ {| wave_id := "DEV-and-QA-Deployments"; wave_pre := []; wave_post := [];
       wave_stages := [deployment (the_dev c); deployment (the_qa c)] |};
    {| wave_id := "Primary-DB-Region-Deployments";
       wave_pre := [ManualApprovalStep "ProdManualApproval"]; wave_post := [];
       wave_stages := [deployment (the_stgPrimary c); deployment (the_prdPrimary c)] |};
    {| wave_id := "Secondary-DB-Region-Deployments"; wave_pre := []; wave_post := [];
       wave_stages := [deployment (the_stgBackup c); deployment (the_prdBackup c)] |} ].

Definition the_graph : list GraphWave :=
  [ {| gw_id := "DEV-and-QA-Deployments"; gw_pre := [];
       gw_stages := ["dev"; "qa"]; gw_post := [] |};
    {| gw_id := "Primary-DB-Region-Deployments";
       gw_pre := [ManualApprovalStep "ProdManualApproval"];
       gw_stages := ["stg-primary"; "prd-primary"]; gw_post := [] |};
    {| gw_id := "Secondary-DB-Region-Deployments"; gw_pre := [];
       gw_stages := ["stg-backup"; "prd-backup"]; gw_post := [] |} ].

Definition the_props (c : Settings) : CodePipelineProps :=
  {| enableKeyRotation := true;
     crossAccountKeys := true;
     pipelineName := "AwsSamplesPipeline";
     synth := ShellStep "deploy"
                (gitHub (githubOrg c +:+ "/" +:+ githubRepo c) (githubBranch c))
                ["npm ci"; "npm run build"; "npx cdk synth"] |}.

(** The artifact bucket, whose CloudFormation resource is at [r]. *)
Definition the_artifactBucket (id : string) (r : ref) : Bucket :=
  {| b_id := "ArtifactsBucket"; b_props := None;
     bucketName := RefToken [id; "Pipeline"; "Pipeline"; "ArtifactsBucket"; "Resource"];
     defaultChild := Some r |}.

(** The access-log bucket, whose CloudFormation resource is at [r]. *)
Definition the_accessLogsBucket (id : string) (r : ref) : Bucket :=
  {| b_id := "MultiAccountAccessLogsBucket";
     b_props := Some {| bp_bucketName := None;
                        bp_blockPublicAccess := Some BLOCK_ALL;
                        bp_encryption := Some S3_MANAGED;
                        bp_enforceSSL := Some true;
                        bp_removalPolicy := Some DESTROY;
                        bp_autoDeleteObjects := Some true |};
     bucketName := RefToken [id; "MultiAccountAccessLogsBucket"; "Resource"];
     defaultChild := Some r |}.

Definition the_pipeline (c : Settings) (id : string) (r : ref) : CodePipeline :=
  {| cp_id := "Pipeline"; cp_props := the_props c; cp_waves := [0; 1; 2];
     cp_built := Some {| Cdk.artifactBucket := the_artifactBucket id r;
                         Cdk.graph := the_graph |} |}.

(** The child the stack adds to the application scope for itself. *)
Definition stackNode (id : string) : Construct :=
  {| constructorName := "CdkPipelineStack"; c_id := id; replicationBucket := None |}.

(** The [i]-th support stack, when the CloudFormation resources of the
    replication buckets start at [base]. *)
Definition supportStack (base : nat) (i : nat) (rg : string) : Construct :=
  let name := "cross-region-stack-" +:+ rg in
  {| constructorName := "CrossRegionSupportStack";
     c_id := name;
     replicationBucket :=
       Some {| b_id := "CrossRegionCodePipelineReplicationBucket";
               b_props := None;
               bucketName := RefToken [name; "CrossRegionCodePipelineReplicationBucket"; "Resource"];
               defaultChild := Some (base + i) |} |}.

Definition logging (destination : CfnString) : CfnBucket :=
  {| loggingConfiguration :=
       Some {| destinationBucketName := destination; logFilePrefix := "logs/" |} |}.

Definition no_logging : CfnBucket := {| loggingConfiguration := None |}.

Definition the_locals (c : Settings) (id : string) (n k : nat) : CdkPipelineStack :=
  {| pipeline := 0;
     devQaWave := 0;
     primaryRdsRegionWave := 1;
     secondaryRdsRegionWave := 2;
     dev := the_dev c; qa := the_qa c;
     stgPrimary := the_stgPrimary c; prdPrimary := the_prdPrimary c;
     stgBackup := the_stgBackup c; prdBackup := the_prdBackup c;
     accessLogsBucket := the_accessLogsBucket id (n + 1 + k);
     artifactBucket := n |}.

Definition the_world (c : Settings) (supportRegions : list string) (id : string)
    (scope : list Construct) (buckets : list CfnBucket) : World :=
  let n := length buckets in
  {| appChildren := scope ++ [stackNode id] ++ imap (supportStack (n + 1)) supportRegions;
     stackChildren := ["Pipeline"; "dev"; "qa"; "stg-primary"; "prd-primary";
                       "stg-backup"; "prd-backup"; "MultiAccountAccessLogsBucket";
                       "Custom::S3AutoDeleteObjectsCustomResourceProvider"];
     waves := the_waves c;
     cfnBuckets :=
       buckets ++
       [logging (bucketName (the_accessLogsBucket id (n + 1 + length supportRegions)))] ++
       replicate (length supportRegions) (logging (Lit "MultiAccountAccessLogsBucket")) ++
       [no_logging];
     pipelines := [the_pipeline c id n];
     suppressions :=
       [{| nag_id := "AwsSolutions-IAM5";
           nag_reason := "Supressing errors originating in external packages." |}] |}.

(** *** Reading the outcome *)

(** The waves declared on a pipeline, read through their references in
    declaration order. *)
Definition declared (w : World) (cp : CodePipeline) : list (option Wave) :=
  (fun r => waves w !! r) <$> cp_waves cp.

(** The name of a wave with the names of its stages, in the order added. *)
Definition wave_shape (wv : Wave) : string * list string :=
  (wave_id wv, sd_stageName <$> wave_stages wv).

Definition graph_shape (g : GraphWave) : string * list string :=
  (gw_id g, gw_stages g).

Definition topology : list (string * list string) :=
  [ ("DEV-and-QA-Deployments", ["dev"; "qa"]);
    ("Primary-DB-Region-Deployments", ["stg-primary"; "prd-primary"]);
    ("Secondary-DB-Region-Deployments", ["stg-backup"; "prd-backup"]) ].

(** The value of an environment variable as the specification words it:
    the fallback is used when the variable is unset. *)
Definition unset_fallback (process_env : gmap string string)
    (name fallback : string) : string :=
  default fallback (process_env !! name).

(** [chosen process_env name fallback v]: the variable is set to the
    non-empty value [v], or it is unset or empty and [v] is the fallback. *)
Inductive chosen (process_env : gmap string string) (name fallback : string) : string -> Prop :=
| chosen_set v :
    process_env !! name = Some v -> v <> EmptyString ->
    chosen process_env name fallback v
| chosen_unset :
    process_env !! name = None ->
    chosen process_env name fallback fallback
| chosen_empty :
    process_env !! name = Some EmptyString ->
    chosen process_env name fallback fallback.

(** The environment of the end-to-end scenario. *)
Definition acme_env : gmap string string :=
  {[ "GITHUB_ORG" := "acme"; "GITHUB_REPO" := "app"; "GITHUB_BRANCH" := "release" ]}.

(** An environment in which the branch variable is set, to the empty string. *)
Definition empty_branch_env : gmap string string :=
  {[ "GITHUB_ORG" := "acme"; "GITHUB_REPO" := "app"; "GITHUB_BRANCH" := EmptyString ]}.

(** An application scope that already holds another stack. *)
Definition other_scope : list Construct :=
  [{| constructorName := "MonitoringStack"; c_id := "Monitoring";
      replicationBucket := None |}].

(** An environment with two distinct regions, for which the framework
    creates one cross-region support stack. *)
Definition two_region_env : gmap string string :=
  {[ "PRIMARY_REGION" := "us-east-1"; "SECONDARY_REGION" := "us-west-2" ]}.

End Synthesis.

(** ** Run-time orchestration of the finalised graph *)

Module Orchestrator.
Import Cdk.

(** What reaches the orchestrator from outside: a pre-condition is approved
    or rejected, a stage finishes deploying, or time passes. *)
Inductive Event :=
| Approved (step : string)
| Rejected (step : string)
| Finished (stage : string)
| Tick.

(** The record of an execution: events as they are received and stage
    deployments as they begin, in the order they happen. *)
Inductive Entry :=
| Received (e : Event)
| Begin (wave stage : string).

Inductive Phase :=
| Waiting (approved : list string)     (* at the gate of the head wave *)
| Deploying (finished : list string)   (* the stages of the head wave have begun *)
| Halted.                              (* a pre-condition was rejected *)

Record Exec := {
  pending : list GraphWave;
  phase : Phase;
  log : list Entry
}.

Definition step_id (s : Step) : string :=
  match s with
  | ShellStep id _ _ => id
  | ManualApprovalStep id => id
  end.

Definition begins (wv : GraphWave) : list Entry :=
  Begin (gw_id wv) <$> gw_stages wv.

(** Modelled from the spec: the orchestrator that executes the finalised
    graph belongs to the provisioning framework and is not in the sources.
    Waves execute in the order added.  A wave without pre-conditions begins
    as soon as it is reached; a wave with pre-conditions waits at its gate. *)
Fixpoint reach (ws : list GraphWave) (lg : list Entry) : Exec :=
  match ws with
  | [] => {| pending := []; phase := Waiting []; log := lg |}
  | wv :: rest =>
      match gw_pre wv, gw_stages wv with
      | [], [] => reach rest lg
      | [], _ :: _ => {| pending := ws; phase := Deploying []; log := lg ++ begins wv |}
      | _ :: _, _ => {| pending := ws; phase := Waiting []; log := lg |}
      end
  end.

Definition all_in (required got : list string) : bool :=
  forallb (fun x => bool_decide (x ∈ got)) required.

(** Modelled from the spec: one step of the orchestrator.  The
    pre-conditions of a wave must all resolve to approved before its stages
    begin deploying; the next wave is reached when all stages of the current
    one have finished.  There is no timeout: the passage of time changes
    nothing, the orchestrator keeps waiting. *)
Definition exec_step (x : Exec) (e : Event) : Exec :=
  let lg := log x ++ [Received e] in
  let same := {| pending := pending x; phase := phase x; log := lg |} in
  match pending x, phase x, e with
  | wv :: rest, Waiting approved, Approved p =>
      if bool_decide (p ∈ step_id <$> gw_pre wv) then
        let approved' := p :: approved in
        if all_in (step_id <$> gw_pre wv) approved' then
          match gw_stages wv with
          | [] => reach rest lg
          | _ :: _ => {| pending := wv :: rest; phase := Deploying [];
                         log := lg ++ begins wv |}
          end
        else {| pending := wv :: rest; phase := Waiting approved'; log := lg |}
      else same
  | wv :: rest, Waiting approved, Rejected p =>
      if bool_decide (p ∈ step_id <$> gw_pre wv)
      then {| pending := wv :: rest; phase := Halted; log := lg |}
      else same
  | wv :: rest, Deploying finished, Finished st =>
      if bool_decide (st ∈ gw_stages wv) then
        let finished' := st :: finished in
        if all_in (gw_stages wv) finished'
        then reach rest lg
        else {| pending := wv :: rest; phase := Deploying finished'; log := lg |}
      else same
  | _, _, _ => same
  end.

(** An execution of a graph on a sequence of events. *)
Definition execute (g : list GraphWave) (events : list Event) : Exec :=
  foldl exec_step (reach g []) events.

(** The stage deployments begun in a record, without the events. *)
Definition begun (lg : list Entry) : list (string * string) :=
  omap (fun x => match x with Begin wv st => Some (wv, st) | Received _ => None end) lg.

(** A record is justified for a graph when every stage deployment in it
    belongs to a wave of the graph, and all pre-conditions of that wave were
    approved earlier in the record. *)
Definition justified (g : list GraphWave) (lg : list Entry) : Prop :=
  forall i wid st,
    lg !! i = Some (Begin wid st) ->
    exists wv, wv ∈ g /\ gw_id wv = wid /\ st ∈ gw_stages wv /\
      forall p, p ∈ gw_pre wv -> Received (Approved (step_id p)) ∈ take i lg.

(** What every reachable state of an execution satisfies. *)
Definition invariant (g : list GraphWave) (x : Exec) : Prop :=
  justified g (log x) /\
  (forall wv, wv ∈ pending x -> wv ∈ g) /\
  (forall approved a, phase x = Waiting approved -> a ∈ approved ->
     Received (Approved a) ∈ log x).

End Orchestrator.

(** ** Lambda handler B: the diagnostic entry point *)

Module LambdaB.

(** The state of a promise. *)
Inductive Promise (A : Type) :=
| Pending
| Fulfilled (a : A)
| Rejected (e : Exn).
Arguments Pending {A}.
Arguments Fulfilled {A} a.
Arguments Rejected {A} e.

(** Code that writes to the console: the lines written so far are threaded
    through. *)
Definition IO (A : Type) : Type := list string -> A * list string.

Definition pure {A} (a : A) : IO A := fun out => (a, out).

Definition seq {A B} (m : IO A) (k : A -> IO B) : IO B :=
  fun out => let (a, out') := m out in k a out'.

Definition console_log (line : string) : IO unit :=
  fun out => (tt, out ++ [line]).

Definition newline : string := String (Ascii.ascii_of_nat 10) EmptyString.
Definition dquote : string := String (Ascii.ascii_of_nat 34) EmptyString.
Definition backslash : string := String (Ascii.ascii_of_nat 92) EmptyString.

Definition join (sep : string) (l : list string) : string :=
  match l with
  | [] => EmptyString
  | x :: rest => foldl (fun acc y => acc +:+ sep +:+ y) x rest
  end.

Definition hex_digit (n : nat) : string :=
  String (Ascii.ascii_of_nat (if n <? 10 then 48 + n else 87 + n)) EmptyString.

(** The escape of one character inside a JSON string. *)
Definition escape (c : Ascii.ascii) : string :=
  let n := Ascii.nat_of_ascii c in
  if n =? 34 then backslash +:+ dquote
  else if n =? 92 then backslash +:+ backslash
  else if n =? 8 then backslash +:+ "b"
  else if n =? 12 then backslash +:+ "f"
  else if n =? 10 then backslash +:+ "n"
  else if n =? 13 then backslash +:+ "r"
  else if n =? 9 then backslash +:+ "t"
  else if n <? 32 then backslash +:+ "u00" +:+ hex_digit (n / 16) +:+ hex_digit (n mod 16)
  else String c EmptyString.

Fixpoint escape_all (s : string) : string :=
  match s with
  | EmptyString => EmptyString
  | String c rest => escape c +:+ escape_all rest
  end.

Definition quote (s : string) : string := dquote +:+ escape_all s +:+ dquote.

Section Handler.

(** Numbers of the invocation event and their decimal rendering are left
    abstract. *)
Variable Number : Type.
Variable Number_toString : Number -> string.

(** An invocation event: a value delivered by the platform as JSON.  The
    properties of an object are listed in enumeration order. *)
#[warnings="-register-all"]
Inductive Json :=
| JNull
| JBool (b : bool)
| JNumber (n : Number)
| JString (s : string)
| JArray (items : list Json)
| JObject (properties : list (string * Json)).

(** [JSON.stringify(value, null, gap)] at the current indentation. *)
Fixpoint stringify (gap indent : string) (value : Json) : string :=
  let inner := indent +:+ gap in
  let separator := "," +:+ newline +:+ inner in
  match value with
  | JNull => "null"
  | JBool true => "true"
  | JBool false => "false"
  | JNumber n => Number_toString n
  | JString s => quote s
  | JArray [] => "[]"
  | JArray items =>
      "[" +:+ newline +:+ inner +:+
      join separator (map (stringify gap inner) items) +:+
      newline +:+ indent +:+ "]"
  | JObject [] => "{}"
  | JObject properties =>
      "{" +:+ newline +:+ inner +:+
      join separator
        (map (fun kv => quote (fst kv) +:+ ": " +:+ stringify gap inner (snd kv))
             properties) +:+
      newline +:+ indent +:+ "}"
  end.

Definition JSON_stringify (value : Json) : string :=
  stringify "  " EmptyString value.

(** The invocation context, as far as the handler reads it. *)
Record Context := {
  functionName : string;
  awsRequestId : string;
  logGroupName : string;
  logStreamName : string
}.

(** [export const handler: Handler = async (event, context) => ...] *)
Definition handler (event : Json) (context : Context) : IO (Promise string) :=
  seq (console_log ("EVENT: " +:+ newline +:+ JSON_stringify event)) (fun _ =>
  pure (Fulfilled (logStreamName context))).

End Handler.

Arguments JNull {Number}.
Arguments JBool {Number} b.
Arguments JString {Number} s.
Arguments JArray {Number} items.
Arguments JObject {Number} properties.
Arguments JNumber {Number} n.

End LambdaB.

(** ** Lambda handler A: the GraphQL-backed entry point *)

Module LambdaA.

(** The eventual state of a promise. *)
Inductive Outcome :=
| Pending
| Fulfilled
| Rejected (e : Exn).

(** How the call [db()] of the connection initialiser behaves: it throws
    before returning, or it returns a promise. *)
Inductive DbCall :=
| Throws (e : Exn)
| Returns (p : Outcome).

(** A promise created while the module is evaluated, with the number of
    reactions ([then], [catch], [await]) attached to it. *)
Record Floating := {
  outcome : Outcome;
  reactions : nat
}.

(** How the body of a function ends: it runs to its end, it stays suspended
    at an [await] for ever, or it throws. *)
Inductive Completion :=
| Normal
| Suspended
| Abrupt (e : Exn).

(** The promises created so far are threaded through the evaluation. *)
Definition Eval (A : Type) : Type := list Floating -> A * list Floating.

Definition new_promise (o : Outcome) : Eval nat :=
  fun heap => (length heap, heap ++ [{| outcome := o; reactions := 0 |}]).

(** [await p]: a reaction is attached to [p]; the body resumes when [p] is
    fulfilled, throws when it is rejected, and stays suspended otherwise. *)
Definition await (p : nat) : Eval Completion :=
  fun heap =>
    match heap !! p with
    | Some f =>
        (match outcome f with
         | Fulfilled => Normal
         | Pending => Suspended
         | Rejected e => Abrupt e
         end,
         <[p := {| outcome := outcome f; reactions := S (reactions f) |}]> heap)
    | None => (Abrupt (TypeError "not a promise"), heap)
    end.

(** The body of [createConnection]: [await db();] *)
Definition createConnection_body (db : DbCall) : Eval Completion :=
  fun heap =>
    match db with
    | Throws e => (Abrupt e, heap)
    | Returns o =>
        let (p, heap') := new_promise o heap in
        await p heap'
    end.

(** Calling an async function never throws to the caller: the call returns
    a promise that settles the way the body ends. *)
Definition async (body : Eval Completion) : Eval nat :=
  fun heap =>
    let (c, heap') := body heap in
    new_promise (match c with
                 | Normal => Fulfilled
                 | Suspended => Pending
                 | Abrupt e => Rejected e
                 end) heap'.

(** [const createConnection = async () => { await db(); }] *)
Definition createConnection (db : DbCall) : Eval nat :=
  async (createConnection_body db).

Section Module.

(** [./typeDefs], [./resolvers] and the server library are outside the
    module. *)
Variables Schema Resolvers Plugin Handler : Type.
Variable typeDefs : Schema.
Variable resolvers : Resolvers.
Variable ApolloServerPluginLandingPageGraphQLPlayground : Plugin.

Record Config := {
  cfg_typeDefs : Schema;
  cfg_resolvers : Resolvers;
  introspection : bool;
  plugins : list Plugin
}.

(** [new ApolloServer(config)] followed by [server.createHandler()]. *)
Variable createHandler : Config -> Handler.

(** What evaluating the module leaves behind: its export, and the promises
    it created. *)
Record Evaluated := {
  handler : Handler;
  promises : list Floating
}.

(** The module body, statement by statement.  The promise returned by
    [createConnection()] is dropped by the expression statement. *)
Definition evaluate (db : DbCall) : Result Evaluated :=
  let (_, heap) := createConnection db [] in
  let server :=
    {| cfg_typeDefs := typeDefs;
       cfg_resolvers := resolvers;
       introspection := true;
       plugins := [ApolloServerPluginLandingPageGraphQLPlayground] |} in
  Ok {| handler := createHandler server; promises := heap |}.

End Module.

End LambdaA.

(** ** The access-logging loop in closed form *)

Module Wiring.
Import Cdk PipelineStack.

(** The CloudFormation bucket the loop assigns to when it visits a child:
    the default child of the replication bucket of a child whose class is
    named CrossRegionSupportStack. *)
Definition target (c : Construct) : option nat :=
  if bool_decide (constructorName c = "CrossRegionSupportStack")
  then replicationBucket c ≫= defaultChild
  else None.

Definition targets (children : list Construct) : list nat := omap target children.

(** A child the loop can visit without a TypeError, when the heap holds [n]
    buckets: if it carries the class name of a support stack, it has a
    replication bucket whose default child is a bucket of the heap. *)
Definition wired (n : nat) (c : Construct) : Prop :=
  constructorName c = "CrossRegionSupportStack" ->
  exists b r, replicationBucket c = Some b /\ defaultChild b = Some r /\ r < n.

(** The buckets after the loop has assigned [cfg] for each child in turn. *)
Fixpoint rewire (cfg : LoggingConfiguration) (children : list Construct)
    (heap : list CfnBucket) : list CfnBucket :=
  match children with
  | [] => heap
  | c :: rest =>
      rewire cfg rest
        match target c with
        | Some r => <[r := {| loggingConfiguration := Some cfg |}]> heap
        | None => heap
        end
  end.

(** An application scope that already holds a cross-region support stack,
    left by another pipeline of the application, whose replication bucket
    is the first bucket of the heap and logs somewhere else. *)
Definition shared_scope : list Construct :=
  [ {| constructorName := "MonitoringStack"; c_id := "Monitoring";
       replicationBucket := None |};
    {| constructorName := "CrossRegionSupportStack";
       c_id := "cross-region-stack-eu-west-1";
       replicationBucket :=
         Some {| b_id := "CrossRegionCodePipelineReplicationBucket";
                 b_props := None;
                 bucketName := RefToken ["cross-region-stack-eu-west-1";
                                         "CrossRegionCodePipelineReplicationBucket";
                                         "Resource"];
                 defaultChild := Some 0 |} |} ].

Definition shared_buckets : list CfnBucket :=
  [ {| loggingConfiguration :=
         Some {| destinationBucketName := Lit "audit-logs"; logFilePrefix := "s3/" |} |};
    {| loggingConfiguration := None |} ].

End Wiring.

(** ** A container that serves several invocations *)

Module Container.
Import LambdaB.

Section Invocations.

Variable Number : Type.
Variable Number_toString : Number -> string.

(** The platform invokes the exported handler of a container on one
    request after another; all invocations write to the console of the
    container. *)
Fixpoint invoke_all (requests : list (Json Number * Context)) : IO (list (Promise string)) :=
  match requests with
  | [] => pure []
  | request :: rest =>
      seq (handler Number Number_toString (fst request) (snd request)) (fun result =>
      seq (invoke_all rest) (fun results =>
      pure (result :: results)))
  end.

End Invocations.

End Container.

(** ** Handler B on arbitrary arguments *)

Module Js.
Import LambdaB.

Section Values.

Variable Number : Type.
Variable Number_toString : Number -> string.

(** The values an invocation can pass.  Objects and arrays are given by
    their own enumerable data properties, in enumeration order; a reference
    from inside an object or array back to an enclosing one is [VCircular].
    Accessor properties and [toJSON] methods are not represented. *)
#[warnings="-register-all"]
Inductive Value :=
| VUndefined
| VNull
| VBool (b : bool)
| VNumber (n : Number)
| VNonFinite
| VBigInt (z : Z)
| VString (s : string)
| VSymbol
| VFunction
| VArray (items : list Value)
| VObject (properties : list (string * Value))
| VCircular.

(** A JSON value as a value. *)
Fixpoint of_json (e : Json Number) : Value :=
  match e with
  | JNull => VNull
  | JBool b => VBool b
  | JNumber n => VNumber n
  | JString s => VString s
  | JArray items => VArray (map of_json items)
  | JObject properties =>
      VObject (map (fun kv => (fst kv, of_json (snd kv))) properties)
  end.

(** The texts of the elements of an array: an element without a JSON form
    is written null; the first element that throws decides. *)
Fixpoint array_texts (results : list (Result (option string))) : Result (list string) :=
  match results with
  | [] => Ok []
  | Throw e :: _ => Throw e
  | Ok text :: rest =>
      match array_texts rest with
      | Ok texts => Ok (default "null" text :: texts)
      | Throw e => Throw e
      end
  end.

(** The texts of the properties of an object: a property without a JSON
    form is left out; the first property that throws decides. *)
Fixpoint member_texts (results : list (string * Result (option string))) : Result (list string) :=
  match results with
  | [] => Ok []
  | (_, Throw e) :: _ => Throw e
  | (_, Ok None) :: rest => member_texts rest
  | (key, Ok (Some text)) :: rest =>
      match member_texts rest with
      | Ok texts => Ok ((quote key +:+ ": " +:+ text) :: texts)
      | Throw e => Throw e
      end
  end.

(** [JSON.stringify(value, null, gap)] at the current indentation: the
    text, [None] for [undefined], or the TypeError thrown for a BigInt or a
    circular structure. *)
Fixpoint serialize (gap indent : string) (value : Value) : Result (option string) :=
  let inner := indent +:+ gap in
  let separator := "," +:+ newline +:+ inner in
  match value with
  | VUndefined | VSymbol | VFunction => Ok None
  | VNull | VNonFinite => Ok (Some "null")
  | VBool true => Ok (Some "true")
  | VBool false => Ok (Some "false")
  | VNumber n => Ok (Some (Number_toString n))
  | VBigInt _ => Throw (TypeError "Do not know how to serialize a BigInt")
  | VString s => Ok (Some (quote s))
  | VCircular => Throw (TypeError "Converting circular structure to JSON")
  | VArray items =>
      match array_texts (map (serialize gap inner) items) with
      | Throw e => Throw e
      | Ok [] => Ok (Some "[]")
      | Ok texts =>
          Ok (Some ("[" +:+ newline +:+ inner +:+ join separator texts +:+
                    newline +:+ indent +:+ "]"))
      end
  | VObject properties =>
      match member_texts
              (map (fun kv => (fst kv, serialize gap inner (snd kv))) properties) with
      | Throw e => Throw e
      | Ok [] => Ok (Some "{}")
      | Ok texts =>
          Ok (Some ("{" +:+ newline +:+ inner +:+ join separator texts +:+
                    newline +:+ indent +:+ "}"))
      end
  end.

Definition JSON_stringify (value : Value) : Result (option string) :=
  serialize "  " EmptyString value.

(** A value [JSON.stringify] throws on: a BigInt or a circular reference,
    or an array or object that holds such a value. *)
Inductive unserializable : Value -> Prop :=
| unserializable_bigint z : unserializable (VBigInt z)
| unserializable_circular : unserializable VCircular
| unserializable_item items v :
    v ∈ items -> unserializable v -> unserializable (VArray items)
| unserializable_property properties kv :
    kv ∈ properties -> unserializable (snd kv) -> unserializable (VObject properties).

(** [export const handler: Handler = async (event, context) => ...], for
    any event and for a context that may be missing ([None] for
    [undefined] or [null]).  What the body throws rejects the promise of the
    async function. *)
Definition handler (event : Value) (context : option Context) : IO (Promise string) :=
  fun out =>
    match JSON_stringify event with
    | Throw e => (Rejected e, out)
    | Ok text =>
        let out' := out ++ ["EVENT: " +:+ newline +:+ default "undefined" text] in
        match context with
        | Some c => (Fulfilled (logStreamName c), out')
        | None =>
            (Rejected (TypeError "Cannot read properties of undefined (reading 'logStreamName')"),
             out')
        end
    end.

End Values.

Arguments VUndefined {Number}.
Arguments VNull {Number}.
Arguments VBool {Number} b.
Arguments VNumber {Number} n.
Arguments VNonFinite {Number}.
Arguments VBigInt {Number} z.
Arguments VString {Number} s.
Arguments VSymbol {Number}.
Arguments VFunction {Number}.
Arguments VArray {Number} items.
Arguments VObject {Number} properties.
Arguments VCircular {Number}.

End Js.

(** ** Reading JSON text *)

Module JsonText.
Import LambdaB.

Definition quote_char : ascii := ascii_of_nat 34.
Definition backslash_char : ascii := ascii_of_nat 92.

Definition is_ws (c : ascii) : bool :=
  let n := nat_of_ascii c in
  (n =? 32) || (n =? 10) || (n =? 13) || (n =? 9).

(** The characters a number is written with. *)
Definition is_numeric (c : ascii) : bool :=
  let n := nat_of_ascii c in
  ((48 <=? n) && (n <=? 57)) || (n =? 43) || (n =? 45) || (n =? 46) ||
  (n =? 101) || (n =? 69).

Fixpoint skip_ws (s : string) : string :=
  match s with
  | EmptyString => EmptyString
  | String c rest => if is_ws c then skip_ws rest else s
  end.

(** The longest prefix of numeric characters, and what follows it. *)
Fixpoint span_numeric (s : string) : string * string :=
  match s with
  | EmptyString => (EmptyString, EmptyString)
  | String c rest =>
      if is_numeric c
      then let (number, after) := span_numeric rest in (String c number, after)
      else (EmptyString, s)
  end.

(** [expect word s]: [s] without its prefix [word]. *)
Fixpoint expect (word s : string) : option string :=
  match word, s with
  | EmptyString, _ => Some s
  | String c word', String d rest => if Ascii.eqb c d then expect word' rest else None
  | String _ _, EmptyString => None
  end.

Definition hex_value (c : ascii) : option nat :=
  let n := nat_of_ascii c in
  if (48 <=? n) && (n <=? 57) then Some (n - 48)
  else if (97 <=? n) && (n <=? 102) then Some (n - 87)
  else if (65 <=? n) && (n <=? 70) then Some (n - 55)
  else None.

(** The character written [\uXXXX], when it fits a byte. *)
Definition unicode (h1 h2 h3 h4 : ascii) : option ascii :=
  match hex_value h1, hex_value h2, hex_value h3, hex_value h4 with
  | Some a, Some b, Some c, Some d =>
      let n := ((a * 16 + b) * 16 + c) * 16 + d in
      if n <? 256 then Some (ascii_of_nat n) else None
  | _, _, _, _ => None
  end.

(** The character an escape letter stands for. *)
Definition unescape (c : ascii) : option ascii :=
  let n := nat_of_ascii c in
  if n =? 34 then Some quote_char
  else if n =? 92 then Some backslash_char
  else if n =? 47 then Some "/"%char
  else if n =? 98 then Some (ascii_of_nat 8)
  else if n =? 102 then Some (ascii_of_nat 12)
  else if n =? 110 then Some (ascii_of_nat 10)
  else if n =? 114 then Some (ascii_of_nat 13)
  else if n =? 116 then Some (ascii_of_nat 9)
  else None.

Definition prepend (c : ascii) (r : option (string * string)) : option (string * string) :=
  match r with
  | Some (s, rest) => Some (String c s, rest)
  | None => None
  end.

(** The string that ends at the next unescaped quote, and what follows the
    quote. *)
Fixpoint read_string (s : string) : option (string * string) :=
  match s with
  | EmptyString => None
  | String c rest =>
      if Ascii.eqb c quote_char then Some (EmptyString, rest)
      else if Ascii.eqb c backslash_char then
        match rest with
        | EmptyString => None
        | String e rest' =>
            if Ascii.eqb e "u"%char then
              match rest' with
              | String h1 (String h2 (String h3 (String h4 rest''))) =>
                  match unicode h1 h2 h3 h4 with
                  | Some d => prepend d (read_string rest'')
                  | None => None
                  end
              | _ => None
              end
            else
              match unescape e with
              | Some d => prepend d (read_string rest')
              | None => None
              end
        end
      else prepend c (read_string rest)
  end.

(** A string that does not begin with white space. *)
Definition solid (s : string) : Prop :=
  match s with
  | EmptyString => True
  | String c _ => is_ws c = false
  end.

(** A string of spaces. *)
Fixpoint blank (s : string) : Prop :=
  match s with
  | EmptyString => True
  | String c rest => c = " "%char /\ blank rest
  end.

(** A string before which a number ends. *)
Definition delimited (s : string) : Prop :=
  match s with
  | EmptyString => True
  | String c _ => is_numeric c = false
  end.

(** A string that begins as the text of a value does: with a character that
    is neither white space nor a closing bracket. *)
Definition opens_value (s : string) : Prop :=
  match s with
  | EmptyString => False
  | String c _ =>
      is_ws c = false /\ Ascii.eqb c "]" = false /\ Ascii.eqb c "}" = false
  end.

Section Reader.

Variable Number : Type.
Variable Number_parse : string -> option Number.

(** One value, given the readers of the items of an array and of the
    members of an object. *)
Definition value_step
    (items : string -> option (list (Json Number) * string))
    (members : string -> option (list (string * Json Number) * string))
    (s : string) : option (Json Number * string) :=
  match skip_ws s with
  | EmptyString => None
  | String c rest =>
      if Ascii.eqb c "n"%char then
        match expect "ull" rest with Some r => Some (JNull, r) | None => None end
      else if Ascii.eqb c "t"%char then
        match expect "rue" rest with Some r => Some (JBool true, r) | None => None end
      else if Ascii.eqb c "f"%char then
        match expect "alse" rest with Some r => Some (JBool false, r) | None => None end
      else if Ascii.eqb c quote_char then
        match read_string rest with
        | Some (str, r) => Some (JString str, r)
        | None => None
        end
      else if Ascii.eqb c "["%char then
        match skip_ws rest with
        | String d r =>
            if Ascii.eqb d "]"%char then Some (JArray [], r)
            else match items rest with
                 | Some (vs, r') => Some (JArray vs, r')
                 | None => None
                 end
        | EmptyString => None
        end
      else if Ascii.eqb c "{"%char then
        match skip_ws rest with
        | String d r =>
            if Ascii.eqb d "}"%char then Some (JObject [], r)
            else match members rest with
                 | Some (ms, r') => Some (JObject ms, r')
                 | None => None
                 end
        | EmptyString => None
        end
      else
        let (number, r) := span_numeric (String c rest) in
        match Number_parse number with
        | Some n => Some (JNumber n, r)
        | None => None
        end
  end.

(** The items of an array up to its closing bracket. *)
Definition items_step
    (value : string -> option (Json Number * string))
    (items : string -> option (list (Json Number) * string))
    (s : string) : option (list (Json Number) * string) :=
  match value s with
  | None => None
  | Some (v, r) =>
      match skip_ws r with
      | String c r' =>
          if Ascii.eqb c ","%char then
            match items r' with
            | Some (vs, r'') => Some (v :: vs, r'')
            | None => None
            end
          else if Ascii.eqb c "]"%char then Some ([v], r')
          else None
      | EmptyString => None
      end
  end.

(** The members of an object up to its closing brace. *)
Definition members_step
    (value : string -> option (Json Number * string))
    (members : string -> option (list (string * Json Number) * string))
    (s : string) : option (list (string * Json Number) * string) :=
  match skip_ws s with
  | String q r0 =>
      if Ascii.eqb q quote_char then
        match read_string r0 with
        | None => None
        | Some (key, r1) =>
            match skip_ws r1 with
            | String colon r2 =>
                if Ascii.eqb colon ":"%char then
                  match value r2 with
                  | None => None
                  | Some (v, r3) =>
                      match skip_ws r3 with
                      | String c r4 =>
                          if Ascii.eqb c ","%char then
                            match members r4 with
                            | Some (ms, r5) => Some ((key, v) :: ms, r5)
                            | None => None
                            end
                          else if Ascii.eqb c "}"%char then Some ([(key, v)], r4)
                          else None
                      | EmptyString => None
                      end
                  end
                else None
            | EmptyString => None
            end
        end
      else None
  | EmptyString => None
  end.

(** The readers, by recursive descent; [fuel] bounds the nesting and the
    number of items read. *)
Fixpoint read_value (fuel : nat) (s : string) : option (Json Number * string) :=
  match fuel with
  | 0 => None
  | S fuel' => value_step (read_items fuel') (read_members fuel') s
  end
with read_items (fuel : nat) (s : string) : option (list (Json Number) * string) :=
  match fuel with
  | 0 => None
  | S fuel' => items_step (read_value fuel') (read_items fuel') s
  end
with read_members (fuel : nat) (s : string) : option (list (string * Json Number) * string) :=
  match fuel with
  | 0 => None
  | S fuel' => members_step (read_value fuel') (read_members fuel') s
  end.

(** [JSON.parse(text)] on the texts [JSON.stringify] writes: the value the
    whole text stands for.  A text needs less fuel than it has characters. *)
Definition JSON_read (text : string) : option (Json Number) :=
  match read_value (S (String.length text)) text with
  | Some (v, rest) =>
      match skip_ws rest with
      | EmptyString => Some v
      | String _ _ => None
      end
  | None => None
  end.

(** The number of values in a value, the value itself counted, each item
    and member counting once more for its place in the list. *)
Fixpoint weight (v : Json Number) : nat :=
  match v with
  | JArray items => S (list_sum (map (fun x => S (weight x)) items))
  | JObject properties => S (list_sum (map (fun kv => S (weight (snd kv))) properties))
  | _ => 1
  end.

End Reader.

Fixpoint all_numeric (s : string) : bool :=
  match s with
  | EmptyString => true
  | String c rest => is_numeric c && all_numeric rest
  end.

(** A text a number can be written as: not empty, numeric characters only. *)
Definition numeric_text (s : string) : bool :=
  match s with
  | EmptyString => false
  | String _ _ => all_numeric s
  end.

(** Integers in decimal, as JavaScript writes and reads the integers of an
    event below 10^21: an instance of the numbers of an event. *)
Definition Z_toString (z : Z) : string :=
  DecimalString.NilEmpty.string_of_int (Z.to_int z).

Definition Z_parse (s : string) : option Z :=
  option_map Z.of_int (DecimalString.NilEmpty.int_of_string s).

(** An invocation, for the examples. *)
Definition graphql_event : Json Z :=
  JObject
    [ ("path", JString "/graphql");
      ("retries", JNumber 3%Z);
      ("offset", JNumber (-20)%Z);
      ("flags", JArray [JBool true; JNull]) ].

Definition graphql_context : Context :=
  {| functionName := "handlerB";
     awsRequestId := "request-1";
     logGroupName := "/aws/lambda/handlerB";
     logStreamName := "2024/01/01/[$LATEST]abcdef" |}.

End JsonText.

(** * Properties *)

Import Cdk Providers PipelineStack Synthesis.

(** ** Running the construction monad *)

Lemma bind_run {A B} (m : M A) (k : A -> M B) (w w' : World) (a : A) :
  m w = Ok (a, w') -> bind m k w = k a w'.
Proof. intros H. unfold bind. by rewrite H. Qed.

(** [step by tac]: run the first statement of a sequence, [tac] proving what
    it returns. *)
Tactic Notation "step" "by" tactic3(tac) := erewrite bind_run; [|solve [tac]].

Lemma bind_assoc {A B C} (m : M A) (f : A -> M B) (g : B -> M C) (w : World) :
  bind (bind m f) g w = bind m (fun a => bind (f a) g) w.
Proof. unfold bind. by destruct (m w) as [[a w']|e]. Qed.

Lemma bind_ext {A B} (m : M A) (f g : A -> M B) (w : World) :
  (forall a w', f a w' = g a w') -> bind m f w = bind m g w.
Proof. intros H. unfold bind. destruct (m w) as [[a w']|e]; [apply H|done]. Qed.

Lemma new_CfnBucket_run (w : World) :
  new_CfnBucket w =
  Ok (length (cfnBuckets w), with_cfnBuckets (cfnBuckets w ++ [no_logging]) w).
Proof. reflexivity. Qed.

Lemma set_loggingConfiguration_run (r : ref) (cfg : LoggingConfiguration) (w : World) :
  r < length (cfnBuckets w) ->
  set_loggingConfiguration r cfg w =
  Ok (tt, with_cfnBuckets (<[r := {| loggingConfiguration := Some cfg |}]> (cfnBuckets w)) w).
Proof.
  intros Hr. unfold set_loggingConfiguration.
  destruct (lookup_lt_is_Some_2 _ _ Hr) as [x Hx].
  cbv [set_loggingConfiguration bind get]. by rewrite Hx.
Qed.

(** The support stacks are appended to the scope, one fresh bucket each. *)
Lemma createSupportStacks_run (regions : list string) (w : World) :
  createSupportStacks regions w =
  Ok (tt, with_appChildren
            (appChildren w ++ imap (supportStack (length (cfnBuckets w))) regions)
            (with_cfnBuckets (cfnBuckets w ++ replicate (length regions) no_logging) w)).
Proof.
  revert w. induction regions as [|rg regions IH]; intros w.
  - destruct w; cbn. unfold with_appChildren, with_cfnBuckets; cbn.
    by rewrite !app_nil_r.
  - cbn [createSupportStacks].
    erewrite bind_run by apply new_CfnBucket_run.
    cbv [bind get put]. rewrite IH. destruct w; cbn. unfold with_appChildren, with_cfnBuckets; cbn.
    do 3 f_equal.
    + rewrite <- app_assoc. f_equal. cbn. f_equal.
      * unfold supportStack. by rewrite Nat.add_0_r.
      * apply imap_ext. intros i x _. rewrite length_app. cbn.
        unfold supportStack. do 4 f_equal. lia.
    + by rewrite <- app_assoc.
Qed.

(** ** The access-logging loop *)

(** The loop over a concatenation is the loop over its parts, in order. *)
Lemma wireCrossRegion_app (l1 l2 : list Construct) (name prefix : string) (w : World) :
  wireCrossRegion (l1 ++ l2) name prefix w =
  (wireCrossRegion l1 name prefix ;;; wireCrossRegion l2 name prefix) w.
Proof.
  revert w. induction l1 as [|c l1 IH]; intros w; [reflexivity|].
  cbn [app wireCrossRegion]. rewrite bind_assoc.
  apply bind_ext. intros _ w'. apply IH.
Qed.

(** A child that is not a cross-region support stack is skipped. *)
Lemma wireCrossRegion_skip (l : list Construct) (name prefix : string) (w : World) :
  Forall (fun c => constructorName c <> "CrossRegionSupportStack") l ->
  wireCrossRegion l name prefix w = Ok (tt, w).
Proof.
  induction 1 as [|c l Hc _ IH]; [done|].
  cbn [wireCrossRegion]. rewrite bool_decide_eq_false_2 by done.
  cbv [bind ret]. exact IH.
Qed.

(** The support stacks created by the framework all get the literal name
    as their logging destination. *)
Lemma wireCrossRegion_supports (regions : list string) (name : string) (base : nat)
    (before after : list CfnBucket) (x : CfnBucket) (w : World) :
  length before = base ->
  wireCrossRegion (imap (supportStack base) regions) name "logs/"
    (with_cfnBuckets (before ++ replicate (length regions) x ++ after) w) =
  Ok (tt, with_cfnBuckets
            (before ++ replicate (length regions) (logging (Lit name)) ++ after) w).
Proof.
  revert base before.
  induction regions as [|rg regions IH]; intros base before Hbase; [done|].
  cbn [imap wireCrossRegion supportStack constructorName replicationBucket
       defaultChild length replicate].
  rewrite bool_decide_eq_true_2 by done.
  cbv [bind defined ret]. cbn [defaultChild]. rewrite Nat.add_0_r.
  rewrite set_loggingConfiguration_run
    by (cbn; rewrite length_app; cbn; lia).
  cbn [cfnBuckets with_cfnBuckets].
  rewrite insert_app_r_alt, Hbase, Nat.sub_diag by lia. cbn [insert list_insert].
  specialize (IH (S base) (before ++ [logging (Lit name)])).
  rewrite length_app in IH. cbn [length] in IH.
  rewrite <- !app_assoc in IH. cbn [app] in IH.
  erewrite imap_ext; [apply IH; lia|].
  intros i y _. cbn. unfold supportStack. do 4 f_equal. lia.
Qed.

Lemma wireCrossRegion_created (regions : list string) (name : string)
    (before after : list CfnBucket) (x : CfnBucket) (w : World) :
  cfnBuckets w = before ++ replicate (length regions) x ++ after ->
  wireCrossRegion (imap (supportStack (length before)) regions) name "logs/" w =
  Ok (tt, with_cfnBuckets
            (before ++ replicate (length regions) (logging (Lit name)) ++ after) w).
Proof.
  intros Hw.
  rewrite <- (wireCrossRegion_supports regions name (length before) before after x w eq_refl).
  f_equal. rewrite <- Hw. by destruct w.
Qed.

(** ** The constructor, run from a fresh stack in an application scope *)

Lemma getOrCreateProvider_run (id : string) (w : World) :
  bool_decide (id ∈ stackChildren w) = false ->
  getOrCreateProvider id w = Ok (tt, with_stackChildren (stackChildren w ++ [id]) w).
Proof. intros H. cbv [getOrCreateProvider bind get]. by rewrite H. Qed.

Lemma addChild_run (id : string) (w : World) :
  bool_decide (id ∈ stackChildren w) = false ->
  addChild id w = Ok (tt, with_stackChildren (stackChildren w ++ [id]) w).
Proof. intros H. cbv [addChild bind get]. by rewrite H. Qed.

Theorem constructor_run (process_env : gmap string string) (supportRegions : list string)
    (id : string) (scope : list Construct) (buckets : list CfnBucket) :
  id ∉ c_id <$> scope ->
  Forall (fun c => constructorName c <> "CrossRegionSupportStack") scope ->
  new_CdkPipelineStack process_env supportRegions id (initial scope buckets) =
  Ok (the_locals (settings process_env) id (length buckets) (length supportRegions),
      the_world (settings process_env) supportRegions id scope buckets).
Proof.
  intros Hid Hscope. unfold new_CdkPipelineStack.
  set (c := settings process_env).
  change (or_else (process_env !! "GITHUB_ORG") "undefined-github-org") with (githubOrg c).
  change (or_else (process_env !! "GITHUB_REPO") "undefined-github-repo") with (githubRepo c).
  change (or_else (process_env !! "GITHUB_BRANCH") "main") with (githubBranch c).
  change (or_else (process_env !! "DEV_ACCOUNT_ID") "undefined") with (devAccountId c).
  change (or_else (process_env !! "STG_ACCOUNT_ID") "undefined") with (stgAccountId c).
  change (or_else (process_env !! "PRD_ACCOUNT_ID") "undefined") with (prdAccountId c).
  change (or_else (process_env !! "PRIMARY_REGION") "undefined") with (primaryRegion c).
  change (or_else (process_env !! "SECONDARY_REGION") "undefined") with (secondaryRegion c).
  clearbody c. destruct c as [org repo branch devA stgA prdA r1 r2].
  cbn [githubOrg githubRepo githubBranch devAccountId stgAccountId
       prdAccountId primaryRegion secondaryRegion].
  cbv zeta.
  (* super(scope, id, props) *)
  erewrite bind_run.
  2:{ cbv [new_Stack initial bind get]. cbn [appChildren].
      rewrite bool_decide_eq_false_2 by done. reflexivity. }
  cbv [with_appChildren]. cbn [appChildren stackChildren waves cfnBuckets pipelines suppressions].
  change ([{| constructorName := "CdkPipelineStack"; c_id := id;
              replicationBucket := None |}]) with [stackNode id].
  remember (org +:+ "/" +:+ repo) as repository eqn:Hrepository.
  remember (scope ++ [stackNode id]) as A eqn:HA.
  (* up to the last [addStage] everything is evaluated *)
  do 17 (step by (vm_compute; reflexivity)).
  (* pipeline.buildPipeline() *)
  erewrite bind_run.
  2:{ unfold buildPipeline.
      step by reflexivity. step by reflexivity.
      cbn [cp_built].
      step by (vm_compute; reflexivity).
      step by (apply new_CfnBucket_run).
      step by (apply createSupportStacks_run).
      step by reflexivity.
      cbv [put with_pipelines with_appChildren with_cfnBuckets].
      cbn [appChildren stackChildren waves cfnBuckets pipelines suppressions
           cp_id cp_props cp_waves insert list_insert].
      reflexivity. }
  (* new Bucket(this, acccessLogsBucketNameStr, ...) *)
  erewrite bind_run.
  2:{ unfold new_Bucket.
      step by (apply addChild_run; vm_compute; reflexivity).
      cbn [bp_autoDeleteObjects bp_removalPolicy bp_bucketName].
      step by (apply new_CfnBucket_run).
      step by (apply getOrCreateProvider_run; vm_compute; reflexivity).
      reflexivity. }
  cbv [with_stackChildren with_cfnBuckets].
  cbn [appChildren stackChildren waves cfnBuckets pipelines suppressions app].
  (* pipeline.pipeline.artifactBucket.node.defaultChild *)
  step by reflexivity. step by reflexivity.
  cbn [bucketName].
  (* artifactBucket.loggingConfiguration = ... *)
  erewrite bind_run.
  2:{ apply set_loggingConfiguration_run. cbn [cfnBuckets].
      rewrite !length_app. cbn [length]. lia. }
  cbv [with_cfnBuckets].
  cbn [appChildren stackChildren waves cfnBuckets pipelines suppressions].
  step by reflexivity.
  cbn [appChildren].
  (* the loop over scope.node.children *)
  rewrite <- !app_assoc.
  rewrite insert_app_r_alt, Nat.sub_diag by lia.
  cbn [insert list_insert app].
  replace (length (buckets ++ [no_logging]))
    with (length (buckets ++ [logging (RefToken [id; "MultiAccountAccessLogsBucket"; "Resource"])]))
    by (by rewrite !length_app).
  erewrite bind_run.
  2:{ rewrite wireCrossRegion_app.
      erewrite bind_run.
      2:{ apply wireCrossRegion_skip. subst A. apply Forall_app. split; [done|].
          by repeat constructor. }
      apply wireCrossRegion_created with (x := no_logging) (after := [no_logging]).
      cbn [cfnBuckets]. by rewrite <- app_assoc. }
  cbv [ret with_cfnBuckets the_locals the_world].
  cbn [appChildren stackChildren waves cfnBuckets pipelines suppressions].
  subst A repository.
  rewrite !length_app, ?length_replicate. cbn [length].
  rewrite <- !app_assoc. cbn [app].
  repeat f_equal.
  unfold the_accessLogsBucket. rewrite length_replicate. do 2 f_equal. lia.
Qed.

(** The graph is read off the waves as they are when the pipeline is built,
    in the order of their references, and the world is left as it is. *)
Lemma materialise_run (rs : list nat) (w : World) (wvs : list Wave) :
  mapM (fun r => waves w !! r) rs = Some wvs ->
  materialise rs w =
  Ok ((fun x => {| gw_id := wave_id x; gw_pre := wave_pre x;
                   gw_stages := sd_stageName <$> wave_stages x;
                   gw_post := wave_post x |}) <$> wvs, w).
Proof.
  revert wvs. induction rs as [|r rs IH]; intros wvs H.
  - by injection H as <-.
  - cbn in H. destruct (waves w !! r) as [x|] eqn:Hx; [|done].
    cbn in H. destruct (mapM _ rs) as [wvs'|] eqn:Hrs; [|done].
    injection H as <-. cbn [materialise]. cbv [bind get defined ret].
    rewrite Hx, (IH wvs' eq_refl). reflexivity.
Qed.

(** ** Executions of a finalised graph *)

Section Executions.
Import Orchestrator.

Variable g : list GraphWave.

Lemma justified_nil : justified g [].
Proof. intros i wid st H. by rewrite lookup_nil in H. Qed.

Lemma justified_received (lg : list Entry) (e : Event) :
  justified g lg -> justified g (lg ++ [Received e]).
Proof.
  intros H i wid st Hi.
  apply lookup_app_Some in Hi as [Hi|[Hge Hi]].
  - destruct (H i wid st Hi) as (wv & ? & ? & ? & Hpre).
    exists wv. repeat split; [done..|]. intros p Hp.
    apply lookup_lt_Some in Hi.
    rewrite take_app_le by lia. by apply Hpre.
  - by apply list_lookup_singleton_Some in Hi as [_ ?].
Qed.

Lemma justified_begins (lg : list Entry) (wv : GraphWave) :
  justified g lg -> wv ∈ g ->
  (forall p, p ∈ gw_pre wv -> Received (Approved (step_id p)) ∈ lg) ->
  justified g (lg ++ begins wv).
Proof.
  intros H Hwv Happroved i wid st Hi.
  apply lookup_app_Some in Hi as [Hi|[Hge Hi]].
  - destruct (H i wid st Hi) as (wv' & ? & ? & ? & Hpre).
    exists wv'. repeat split; [done..|]. intros p Hp.
    apply lookup_lt_Some in Hi.
    rewrite take_app_le by lia. by apply Hpre.
  - unfold begins in Hi. rewrite list_lookup_fmap in Hi.
    destruct (gw_stages wv !! (i - length lg)) as [st'|] eqn:Hst; [|done].
    injection Hi as <- <-.
    exists wv. repeat split; [done| |].
    + by eapply list_elem_of_lookup_2.
    + intros p Hp. rewrite take_app_ge by lia.
      apply elem_of_app. left. by apply Happroved.
Qed.

Lemma reach_invariant (ws : list GraphWave) (lg : list Entry) :
  justified g lg -> (forall wv, wv ∈ ws -> wv ∈ g) -> invariant g (reach ws lg).
Proof.
  revert lg. induction ws as [|wv ws IH]; intros lg Hlg Hws.
  - repeat split; [done|done|]. cbn. intros ? a [= <-] Ha. by apply elem_of_nil in Ha.
  - cbn [reach].
    assert (Hwv : wv ∈ g) by (apply Hws; left).
    assert (Hrest : forall v, v ∈ ws -> v ∈ g) by (intros v Hv; apply Hws; by right).
    destruct (gw_pre wv) as [|p pre] eqn:Hpre; [destruct (gw_stages wv) as [|st sts] eqn:Hst|].
    + by apply IH.
    + repeat split; cbn; [|done|done].
      apply justified_begins; [done..|]. rewrite Hpre. intros p Hp. by apply elem_of_nil in Hp.
    + repeat split; cbn; [done|done|]. intros ? a [= <-] Ha. by apply elem_of_nil in Ha.
Qed.

Lemma all_in_spec (required got : list string) :
  all_in required got = true -> forall x, x ∈ required -> x ∈ got.
Proof.
  unfold all_in. rewrite forallb_forall. intros H x Hx.
  apply list_elem_of_In in Hx. apply H in Hx. by apply bool_decide_eq_true_1 in Hx.
Qed.

Lemma exec_step_invariant (x : Exec) (e : Event) :
  invariant g x -> invariant g (exec_step x e).
Proof.
  intros (Hlog & Hpending & Happroved).
  assert (Hsame : invariant g {| pending := pending x; phase := phase x;
                               log := log x ++ [Received e] |}).
  { repeat split; cbn; [by apply justified_received|done|].
    intros approved a Hphase Ha. apply elem_of_app. left. by eapply Happroved. }
  unfold exec_step.
  destruct (pending x) as [|wv rest] eqn:Hp; [done|].
  assert (Hwv : wv ∈ g) by (apply Hpending; left).
  assert (Hrest : forall v, v ∈ rest -> v ∈ g) by (intros v Hv; apply Hpending; by right).
  destruct (phase x) as [approved|finished|] eqn:Hphase; [| |done].
  - destruct e as [p|p|st|]; [| |done|done].
    + case_bool_decide as Hin; [|done].
      assert (Hnow : forall a, a ∈ p :: approved ->
                Received (Approved a) ∈ log x ++ [Received (Approved p)]).
      { intros a Ha. apply elem_of_app. apply elem_of_cons in Ha as [->|Ha].
        - right. by left.
        - left. by eapply Happroved. }
      destruct (all_in _ _) eqn:Hall.
      * assert (Hgate : forall q, q ∈ gw_pre wv ->
                  Received (Approved (step_id q)) ∈ log x ++ [Received (Approved p)]).
        { intros q Hq. apply Hnow. eapply all_in_spec; [done|].
          by apply list_elem_of_fmap_2. }
        destruct (gw_stages wv) as [|st sts] eqn:Hst.
        -- apply reach_invariant; [by apply justified_received|done].
        -- repeat split; cbn; [|done|done].
           apply justified_begins; [by apply justified_received|done..].
      * repeat split; cbn; [by apply justified_received|done|].
        intros ? a [= <-]. apply Hnow.
    + case_bool_decide; [|done].
      repeat split; cbn; [by apply justified_received|done|done].
  - destruct e as [p|p|st|]; [done|done| |done].
    case_bool_decide; [|done].
    destruct (all_in _ _).
    + apply reach_invariant; [by apply justified_received|done].
    + repeat split; cbn; [by apply justified_received|done|done].
Qed.

Lemma run_invariant (events : list Event) (x : Exec) :
  invariant g x -> invariant g (foldl exec_step x events).
Proof.
  revert x. induction events as [|e events IH]; intros x Hx; [done|].
  cbn. apply IH. by apply exec_step_invariant.
Qed.

(** In every execution, a stage begins only after all pre-conditions of its
    wave have been approved. *)
Lemma gates_hold (events : list Event) (before after : list Entry) (wid st : string) :
  log (execute g events) = before ++ Begin wid st :: after ->
  exists wv, wv ∈ g /\ gw_id wv = wid /\ st ∈ gw_stages wv /\
    forall p, p ∈ gw_pre wv -> Received (Approved (step_id p)) ∈ before.
Proof.
  intros Hlog.
  destruct (run_invariant events (reach g [])) as (Hj & _).
  { apply reach_invariant; [apply justified_nil|done]. }
  destruct (Hj (length before) wid st) as (wv & ? & ? & ? & Hpre).
  { fold (execute g events). rewrite Hlog. by apply list_lookup_middle. }
  exists wv. repeat split; [done..|]. intros p Hp.
  specialize (Hpre p Hp). fold (execute g events) in Hpre.
  by rewrite Hlog, take_app_length in Hpre.
Qed.

(** The passage of time is recorded and changes nothing else. *)
Lemma exec_step_Tick (x : Exec) :
  exec_step x Tick =
  {| pending := pending x; phase := phase x; log := log x ++ [Received Tick] |}.
Proof. unfold exec_step. by destruct (pending x), (phase x). Qed.

Lemma ticks_change_nothing (n : nat) (x : Exec) :
  foldl exec_step x (replicate n Tick) =
  {| pending := pending x; phase := phase x;
     log := log x ++ replicate n (Received Tick) |}.
Proof.
  revert x. induction n as [|n IH]; intros x.
  - cbn. rewrite app_nil_r. by destruct x.
  - cbn [replicate foldl]. rewrite IH, exec_step_Tick. cbn.
    by rewrite <- app_assoc.
Qed.

End Executions.

(** ** The source factory of the framework *)

Lemma append_String (c : ascii) (a b : string) :
  String c a +:+ b = String c (a +:+ b).
Proof. reflexivity. Qed.

Lemma slashes_app (a b : string) : slashes (a +:+ b) = slashes a + slashes b.
Proof.
  induction a as [|c a IH]; [done|].
  rewrite append_String. cbn [slashes]. rewrite IH. lia.
Qed.

(** The factory accepts a string made of an owner and a repository joined
    by a slash exactly when neither holds a slash, and then returns the
    source made of its arguments. *)
Lemma gitHub_source_Ok (org repo branch : string) (source : CodePipelineSource) :
  gitHub_source (org +:+ "/" +:+ repo) branch = Ok source ->
  slashes org = 0 /\ slashes repo = 0 /\
  source = gitHub (org +:+ "/" +:+ repo) branch.
Proof.
  unfold gitHub_source. rewrite !slashes_app. cbn [slashes Ascii.eqb Bool.eqb].
  destruct (Nat.eqb_spec (slashes org + (1 + 0 + slashes repo)) 1) as [H|H]; [|done].
  intros [= <-]. repeat split; lia.
Qed.

Lemma gitHub_source_accepts (org repo branch : string) :
  slashes org = 0 -> slashes repo = 0 ->
  gitHub_source (org +:+ "/" +:+ repo) branch = Ok (gitHub (org +:+ "/" +:+ repo) branch).
Proof.
  intros Horg Hrepo. unfold gitHub_source. rewrite !slashes_app, Horg, Hrepo.
  reflexivity.
Qed.

(** An organisation variable that holds a slash is refused. *)
Example slash_in_the_organisation_is_refused :
  exists msg, gitHub_source ("a/b" +:+ "/" +:+ "app") "main" = Throw (Error msg).
Proof. eexists. reflexivity. Qed.

(** ** Environment variables *)

Lemma chosen_or_else (process_env : gmap string string) (name fallback v : string) :
  chosen process_env name fallback v -> or_else (process_env !! name) fallback = v.
Proof.
  intros [v' Hv Hne| H | H]; rewrite ?Hv, ?H; [|done..].
  by destruct v'.
Qed.

(** Every variable has a value: the one it is set to, or its fallback. *)
Lemma or_else_chosen (process_env : gmap string string) (name fallback : string) :
  chosen process_env name fallback (or_else (process_env !! name) fallback).
Proof.
  destruct (process_env !! name) as [[|c v]|] eqn:H; cbn.
  - by apply chosen_empty.
  - by apply chosen_set.
  - by apply chosen_unset.
Qed.

(** ** The pipeline stack *)

Section Constructed.

Variable process_env : gmap string string.
Variable supportRegions : list string.
Variable id : string.
Variable scope : list Construct.
Variable buckets : list CfnBucket.

(** The stack's id is free in the application scope, and the scope holds no
    cross-region support stack before the pipeline is built. *)
Hypothesis fresh : id ∉ c_id <$> scope.
Hypothesis unsupported :
  Forall (fun c => constructorName c <> "CrossRegionSupportStack") scope.

(** After the build, the artifact bucket of the pipeline logs to the name
    of the access-log bucket, under logs/. *)
Lemma artifact_bucket_logs_to_access_log_bucket :
  exists s w built r,
    new_CdkPipelineStack process_env supportRegions id (initial scope buckets)
      = Ok (s, w) /\
    Cdk.pipeline (pipeline s) w = Ok (built, w) /\
    defaultChild (Cdk.artifactBucket built) = Some r /\
    cfnBuckets w !! r =
      Some {| loggingConfiguration :=
                Some {| destinationBucketName := bucketName (accessLogsBucket s);
                        logFilePrefix := "logs/" |} |}.
Proof.
  eexists _, _, _, _. split; [by apply constructor_run|].
  cbn. repeat split. by rewrite lookup_app_r, Nat.sub_diag.
Qed.

(** Every support stack the framework creates has its replication bucket
    log to the literal MultiAccountAccessLogsBucket, under logs/; the name
    of the access-log bucket is a token, not that literal. *)
Lemma support_buckets_log_to_literal (i : nat) (rg : string) :
  supportRegions !! i = Some rg ->
  exists s w support bucket r,
    new_CdkPipelineStack process_env supportRegions id (initial scope buckets)
      = Ok (s, w) /\
    appChildren w !! (length scope + 1 + i) = Some support /\
    constructorName support = "CrossRegionSupportStack" /\
    replicationBucket support = Some bucket /\
    defaultChild bucket = Some r /\
    cfnBuckets w !! r =
      Some {| loggingConfiguration :=
                Some {| destinationBucketName := Lit "MultiAccountAccessLogsBucket";
                        logFilePrefix := "logs/" |} |} /\
    bucketName (accessLogsBucket s) <> Lit "MultiAccountAccessLogsBucket".
Proof.
  intros Hi.
  eexists _, _, (supportStack (length buckets + 1) i rg), _, _.
  split; [by apply constructor_run|].
  unfold the_locals, the_world.
  cbn [appChildren cfnBuckets accessLogsBucket supportStack constructorName
       replicationBucket defaultChild].
  apply lookup_lt_Some in Hi as Hlt.
  repeat split; try done.
  - rewrite lookup_app_r by lia.
    replace (length scope + 1 + i - length scope) with (S i) by lia.
    cbn [app lookup list_lookup].
    change (imap (supportStack (length buckets + 1)) supportRegions !! i =
            Some (supportStack (length buckets + 1) i rg)).
    by rewrite list_lookup_imap, Hi.
  - rewrite lookup_app_r by lia.
    replace (length buckets + 1 + i - length buckets) with (S i) by lia.
    cbn [app lookup list_lookup].
    change ((replicate (length supportRegions)
               (logging (Lit "MultiAccountAccessLogsBucket")) ++ [no_logging]) !! i =
            Some (logging (Lit "MultiAccountAccessLogsBucket"))).
    rewrite lookup_app_l by (by rewrite length_replicate).
    by apply lookup_replicate_2.
Qed.

(** C2.  The pipeline declares exactly three waves, DEV-and-QA-Deployments
    with stages dev and qa, Primary-DB-Region-Deployments with stg-primary
    and prd-primary, and Secondary-DB-Region-Deployments with stg-backup and
    prd-backup; the waves of the finalised graph are the declared waves in
    declaration order, each with its stages in the order added. *)
Theorem waves_deploy_in_declaration_order :
  exists s w cp built,
    new_CdkPipelineStack process_env supportRegions id (initial scope buckets)
      = Ok (s, w) /\
    pipelines w !! pipeline s = Some cp /\
    cp_waves cp = [devQaWave s; primaryRdsRegionWave s; secondaryRdsRegionWave s] /\
    fmap wave_shape <$> declared w cp = Some <$> topology /\
    cp_built cp = Some built /\
    graph_shape <$> graph built = topology.
Proof.
  eexists _, _, _, _. split; [by apply constructor_run|].
  cbn. repeat split; reflexivity.
Qed.

(** C3.  Each secondary-region stage is given the database instance of its
    primary-region stage as its primary database handle: stg-backup gets
    the instance of stg-primary and prd-backup the instance of prd-primary;
    and each primary stage is constructed before its secondary stage. *)
Theorem backup_stages_replicate_their_primaries :
  exists s w,
    new_CdkPipelineStack process_env supportRegions id (initial scope buckets)
      = Ok (s, w) /\
    rp_primaryRdsInstance (rds_props (rdsStack (stgBackup s))) =
      Some (postgresRDSInstance (rdsStack (stgPrimary s))) /\
    rp_primaryRdsInstance (rds_props (rdsStack (prdBackup s))) =
      Some (postgresRDSInstance (rdsStack (prdPrimary s))) /\
    postgresRDSInstance (rdsStack (stgPrimary s)) <>
      postgresRDSInstance (rdsStack (prdPrimary s)) /\
    (exists i j, stackChildren w !! i = Some (stageName (stgPrimary s)) /\
                 stackChildren w !! j = Some (stageName (stgBackup s)) /\ i < j) /\
    (exists i j, stackChildren w !! i = Some (stageName (prdPrimary s)) /\
                 stackChildren w !! j = Some (stageName (prdBackup s)) /\ i < j) /\
    NoDup (stackChildren w).
Proof.
  eexists _, _. split; [by apply constructor_run|].
  cbn. repeat split; try reflexivity.
  - discriminate.
  - exists 3, 5. repeat split; [reflexivity..|lia].
  - exists 4, 6. repeat split; [reflexivity..|lia].
  - apply (bool_decide_unpack _). vm_compute. exact I.
Qed.

(** C6.  The access-log bucket is created with all four public-access-block
    flags set, SSL enforced, S3-managed server-side encryption, and a
    removal policy that destroys the bucket, together with its objects,
    when the stack is torn down. *)
Theorem access_log_bucket_is_locked_down :
  exists s w props block,
    new_CdkPipelineStack process_env supportRegions id (initial scope buckets)
      = Ok (s, w) /\
    b_id (accessLogsBucket s) ∈ stackChildren w /\
    b_props (accessLogsBucket s) = Some props /\
    bp_blockPublicAccess props = Some block /\
    blockPublicAcls block = true /\
    blockPublicPolicy block = true /\
    ignorePublicAcls block = true /\
    restrictPublicBuckets block = true /\
    bp_enforceSSL props = Some true /\
    bp_encryption props = Some S3_MANAGED /\
    bp_removalPolicy props = Some DESTROY /\
    bp_autoDeleteObjects props = Some true.
Proof.
  eexists _, _, _, _. split; [by apply constructor_run|].
  cbn. repeat split; try reflexivity.
  apply (bool_decide_unpack _). vm_compute. exact I.
Qed.

(** C8, as amended.  The deployment topology declared by the pipeline
    consists of three waves, which hold six stages in all. *)
Theorem topology_has_three_waves :
  exists s w cp built,
    new_CdkPipelineStack process_env supportRegions id (initial scope buckets)
      = Ok (s, w) /\
    pipelines w !! pipeline s = Some cp /\
    length (cp_waves cp) = 3 /\
    length (waves w) = 3 /\
    cp_built cp = Some built /\
    length (graph built) = 3 /\
    length (concat (gw_stages <$> graph built)) = 6.
Proof.
  eexists _, _, _, _. split; [by apply constructor_run|].
  cbn. repeat split; reflexivity.
Qed.

(** C4.  In every execution of the finalised graph, a stage of the wave
    Primary-DB-Region-Deployments begins only after the manual approval
    ProdManualApproval has been received; and time passing changes nothing:
    however long the orchestrator has waited, it is in the same phase with
    the same waves pending. *)
Theorem primary_wave_waits_for_approval :
  exists s w cp built,
    new_CdkPipelineStack process_env supportRegions id (initial scope buckets)
      = Ok (s, w) /\
    pipelines w !! pipeline s = Some cp /\
    cp_built cp = Some built /\
    (exists wv, waves w !! primaryRdsRegionWave s = Some wv /\
                wave_id wv = "Primary-DB-Region-Deployments" /\
                wave_pre wv = [ManualApprovalStep "ProdManualApproval"]) /\
    (forall events before stage after,
       Orchestrator.log (Orchestrator.execute (graph built) events) =
         before ++ Orchestrator.Begin "Primary-DB-Region-Deployments" stage :: after ->
       Orchestrator.Received (Orchestrator.Approved "ProdManualApproval") ∈ before) /\
    (forall events n,
       Orchestrator.execute (graph built) (events ++ replicate n Orchestrator.Tick) =
       {| Orchestrator.pending :=
            Orchestrator.pending (Orchestrator.execute (graph built) events);
          Orchestrator.phase :=
            Orchestrator.phase (Orchestrator.execute (graph built) events);
          Orchestrator.log :=
            Orchestrator.log (Orchestrator.execute (graph built) events) ++
            replicate n (Orchestrator.Received Orchestrator.Tick) |}).
Proof.
  eexists _, _, _, _. split; [by apply constructor_run|].
  cbn. repeat split; try reflexivity.
  - eexists. repeat split; reflexivity.
  - intros events before stage after Hlog.
    destruct (gates_hold _ _ _ _ _ _ Hlog) as (wv & Hwv & Hid & _ & Hpre).
    unfold the_graph in Hwv.
    repeat (apply elem_of_cons in Hwv as [->|Hwv]; [try discriminate Hid|]).
    + apply (Hpre (ManualApprovalStep "ProdManualApproval")). by left.
    + by apply elem_of_nil in Hwv.
  - intros events n. unfold Orchestrator.execute.
    rewrite foldl_app. apply ticks_change_nothing.
Qed.

(** C5, as amended.  Whatever the environment, if the framework accepts
    the repository string made of the organisation and repository variables
    (neither holds a slash), the source step references that repository at
    the branch variable, and the build commands are npm ci, npm run build
    and npx cdk synth; every variable has a fallback that is used when it is
    unset or set to the empty string, main for the branch; and the account
    and region variables reach the stages. *)
Theorem source_and_commands_follow_environment
    (org repo branch devA stgA prdA primary secondary : string)
    (source : CodePipelineSource) :
  chosen process_env "GITHUB_ORG" "undefined-github-org" org ->
  chosen process_env "GITHUB_REPO" "undefined-github-repo" repo ->
  chosen process_env "GITHUB_BRANCH" "main" branch ->
  chosen process_env "DEV_ACCOUNT_ID" "undefined" devA ->
  chosen process_env "STG_ACCOUNT_ID" "undefined" stgA ->
  chosen process_env "PRD_ACCOUNT_ID" "undefined" prdA ->
  chosen process_env "PRIMARY_REGION" "undefined" primary ->
  chosen process_env "SECONDARY_REGION" "undefined" secondary ->
  gitHub_source (org +:+ "/" +:+ repo) branch = Ok source ->
  exists s w cp,
    new_CdkPipelineStack process_env supportRegions id (initial scope buckets)
      = Ok (s, w) /\
    pipelines w !! pipeline s = Some cp /\
    slashes org = 0 /\ slashes repo = 0 /\
    source = gitHub (org +:+ "/" +:+ repo) branch /\
    synth (cp_props cp) =
      ShellStep "deploy" source ["npm ci"; "npm run build"; "npx cdk synth"] /\
    stageEnv (dev s) = Some {| account := devA; region := primary |} /\
    stageEnv (qa s) = Some {| account := devA; region := secondary |} /\
    stageEnv (stgPrimary s) = Some {| account := stgA; region := primary |} /\
    stageEnv (prdPrimary s) = Some {| account := prdA; region := primary |} /\
    stageEnv (stgBackup s) = Some {| account := stgA; region := secondary |} /\
    stageEnv (prdBackup s) = Some {| account := prdA; region := secondary |}.
Proof.
  intros H1 H2 H3 H4 H5 H6 H7 H8 Hsource.
  apply gitHub_source_Ok in Hsource as (Horg & Hrepo & ->).
  assert (Hsettings : settings process_env =
            {| githubOrg := org; githubRepo := repo; githubBranch := branch;
               devAccountId := devA; stgAccountId := stgA; prdAccountId := prdA;
               primaryRegion := primary; secondaryRegion := secondary |}).
  { unfold settings.
    by rewrite (chosen_or_else _ _ _ _ H1), (chosen_or_else _ _ _ _ H2),
      (chosen_or_else _ _ _ _ H3), (chosen_or_else _ _ _ _ H4),
      (chosen_or_else _ _ _ _ H5), (chosen_or_else _ _ _ _ H6),
      (chosen_or_else _ _ _ _ H7), (chosen_or_else _ _ _ _ H8). }
  eexists _, _, _. split; [by apply constructor_run|].
  rewrite Hsettings. cbn. repeat split; done.
Qed.

End Constructed.

(** *** The constructor on concrete inputs *)

Lemma other_scope_fresh : "CdkPipelineStack" ∉ c_id <$> other_scope.
Proof. apply (bool_decide_unpack _). vm_compute. exact I. Qed.

Lemma other_scope_unsupported :
  Forall (fun c => constructorName c <> "CrossRegionSupportStack") other_scope.
Proof. repeat constructor. discriminate. Qed.

Lemma waves_deploy_in_declaration_order_witness :
  exists s w cp built,
    new_CdkPipelineStack acme_env ["us-west-2"] "CdkPipelineStack"
      (initial other_scope []) = Ok (s, w) /\
    pipelines w !! pipeline s = Some cp /\
    cp_waves cp = [devQaWave s; primaryRdsRegionWave s; secondaryRdsRegionWave s] /\
    fmap wave_shape <$> declared w cp = Some <$> topology /\
    cp_built cp = Some built /\
    graph_shape <$> graph built = topology.
Proof.
  apply (waves_deploy_in_declaration_order acme_env ["us-west-2"]
           "CdkPipelineStack" other_scope []).
  - apply (bool_decide_unpack _). vm_compute. exact I.
  - repeat constructor. discriminate.
Defined.

Lemma backup_stages_replicate_their_primaries_witness :
  exists s w,
    new_CdkPipelineStack acme_env ["us-west-2"] "CdkPipelineStack"
      (initial other_scope []) = Ok (s, w) /\
    rp_primaryRdsInstance (rds_props (rdsStack (stgBackup s))) =
      Some (postgresRDSInstance (rdsStack (stgPrimary s))) /\
    rp_primaryRdsInstance (rds_props (rdsStack (prdBackup s))) =
      Some (postgresRDSInstance (rdsStack (prdPrimary s))) /\
    postgresRDSInstance (rdsStack (stgPrimary s)) <>
      postgresRDSInstance (rdsStack (prdPrimary s)) /\
    (exists i j, stackChildren w !! i = Some (stageName (stgPrimary s)) /\
                 stackChildren w !! j = Some (stageName (stgBackup s)) /\ i < j) /\
    (exists i j, stackChildren w !! i = Some (stageName (prdPrimary s)) /\
                 stackChildren w !! j = Some (stageName (prdBackup s)) /\ i < j) /\
    NoDup (stackChildren w).
Proof.
  apply (backup_stages_replicate_their_primaries acme_env ["us-west-2"]
           "CdkPipelineStack" other_scope []).
  - apply (bool_decide_unpack _). vm_compute. exact I.
  - repeat constructor. discriminate.
Defined.

Lemma access_log_bucket_is_locked_down_witness :
  exists s w props block,
    new_CdkPipelineStack acme_env ["us-west-2"] "CdkPipelineStack"
      (initial other_scope []) = Ok (s, w) /\
    b_id (accessLogsBucket s) ∈ stackChildren w /\
    b_props (accessLogsBucket s) = Some props /\
    bp_blockPublicAccess props = Some block /\
    blockPublicAcls block = true /\
    blockPublicPolicy block = true /\
    ignorePublicAcls block = true /\
    restrictPublicBuckets block = true /\
    bp_enforceSSL props = Some true /\
    bp_encryption props = Some S3_MANAGED /\
    bp_removalPolicy props = Some DESTROY /\
    bp_autoDeleteObjects props = Some true.
Proof.
  apply (access_log_bucket_is_locked_down acme_env ["us-west-2"]
           "CdkPipelineStack" other_scope []).
  - apply (bool_decide_unpack _). vm_compute. exact I.
  - repeat constructor. discriminate.
Defined.

Lemma topology_has_three_waves_witness :
  exists s w cp built,
    new_CdkPipelineStack acme_env ["us-west-2"] "CdkPipelineStack"
      (initial other_scope []) = Ok (s, w) /\
    pipelines w !! pipeline s = Some cp /\
    length (cp_waves cp) = 3 /\
    length (waves w) = 3 /\
    cp_built cp = Some built /\
    length (graph built) = 3 /\
    length (concat (gw_stages <$> graph built)) = 6.
Proof.
  apply (topology_has_three_waves acme_env ["us-west-2"]
           "CdkPipelineStack" other_scope []).
  - apply (bool_decide_unpack _). vm_compute. exact I.
  - repeat constructor. discriminate.
Defined.

(** The claim of five waves fails on the pipeline the constructor builds. *)
Lemma topology_does_not_have_five_waves :
  exists s w cp built,
    new_CdkPipelineStack acme_env ["us-west-2"] "CdkPipelineStack"
      (initial other_scope []) = Ok (s, w) /\
    pipelines w !! pipeline s = Some cp /\
    cp_built cp = Some built /\
    length (cp_waves cp) <> 5 /\
    length (graph built) <> 5.
Proof.
  eexists _, _, _, _. split.
  - apply constructor_run; [apply other_scope_fresh|apply other_scope_unsupported].
  - cbn. repeat split; try reflexivity; discriminate.
Qed.

Lemma primary_wave_waits_for_approval_witness :
  exists s w cp built,
    new_CdkPipelineStack acme_env ["us-west-2"] "CdkPipelineStack"
      (initial other_scope []) = Ok (s, w) /\
    pipelines w !! pipeline s = Some cp /\
    cp_built cp = Some built /\
    (exists wv, waves w !! primaryRdsRegionWave s = Some wv /\
                wave_id wv = "Primary-DB-Region-Deployments" /\
                wave_pre wv = [ManualApprovalStep "ProdManualApproval"]) /\
    (forall events before stage after,
       Orchestrator.log (Orchestrator.execute (graph built) events) =
         before ++ Orchestrator.Begin "Primary-DB-Region-Deployments" stage :: after ->
       Orchestrator.Received (Orchestrator.Approved "ProdManualApproval") ∈ before) /\
    (forall events n,
       Orchestrator.execute (graph built) (events ++ replicate n Orchestrator.Tick) =
       {| Orchestrator.pending :=
            Orchestrator.pending (Orchestrator.execute (graph built) events);
          Orchestrator.phase :=
            Orchestrator.phase (Orchestrator.execute (graph built) events);
          Orchestrator.log :=
            Orchestrator.log (Orchestrator.execute (graph built) events) ++
            replicate n (Orchestrator.Received Orchestrator.Tick) |}).
Proof.
  apply (primary_wave_waits_for_approval acme_env ["us-west-2"]
           "CdkPipelineStack" other_scope []).
  - apply (bool_decide_unpack _). vm_compute. exact I.
  - repeat constructor. discriminate.
Defined.

(** The end-to-end scenario: organisation acme, repository app, branch
    release. *)
Lemma source_and_commands_follow_environment_witness :
  exists s w cp,
    new_CdkPipelineStack acme_env ["us-west-2"] "CdkPipelineStack"
      (initial other_scope []) = Ok (s, w) /\
    pipelines w !! pipeline s = Some cp /\
    slashes "acme" = 0 /\ slashes "app" = 0 /\
    gitHub "acme/app" "release" = gitHub ("acme" +:+ "/" +:+ "app") "release" /\
    synth (cp_props cp) =
      ShellStep "deploy" (gitHub "acme/app" "release")
        ["npm ci"; "npm run build"; "npx cdk synth"] /\
    stageEnv (dev s) = Some {| account := "undefined"; region := "undefined" |} /\
    stageEnv (qa s) = Some {| account := "undefined"; region := "undefined" |} /\
    stageEnv (stgPrimary s) = Some {| account := "undefined"; region := "undefined" |} /\
    stageEnv (prdPrimary s) = Some {| account := "undefined"; region := "undefined" |} /\
    stageEnv (stgBackup s) = Some {| account := "undefined"; region := "undefined" |} /\
    stageEnv (prdBackup s) = Some {| account := "undefined"; region := "undefined" |}.
Proof.
  refine (source_and_commands_follow_environment acme_env ["us-west-2"]
            "CdkPipelineStack" other_scope [] _ _
            "acme" "app" "release" "undefined" "undefined" "undefined"
            "undefined" "undefined" (gitHub "acme/app" "release")
            _ _ _ _ _ _ _ _ _).
  - apply (bool_decide_unpack _). vm_compute. exact I.
  - repeat constructor. discriminate.
  - apply chosen_set; [vm_compute; reflexivity|discriminate].
  - apply chosen_set; [vm_compute; reflexivity|discriminate].
  - apply chosen_set; [vm_compute; reflexivity|discriminate].
  - apply chosen_unset. vm_compute. reflexivity.
  - apply chosen_unset. vm_compute. reflexivity.
  - apply chosen_unset. vm_compute. reflexivity.
  - apply chosen_unset. vm_compute. reflexivity.
  - apply chosen_unset. vm_compute. reflexivity.
  - vm_compute. reflexivity.
Defined.

(** With the branch variable set to the empty string the pipeline tracks
    main, not the empty branch that a fallback used only for unset variables
    would give. *)
Lemma empty_branch_falls_back_to_main :
  empty_branch_env !! "GITHUB_BRANCH" = Some EmptyString /\
  unset_fallback empty_branch_env "GITHUB_BRANCH" "main" = EmptyString /\
  exists s w cp,
    new_CdkPipelineStack empty_branch_env ["us-west-2"] "CdkPipelineStack"
      (initial other_scope []) = Ok (s, w) /\
    pipelines w !! pipeline s = Some cp /\
    synth (cp_props cp) =
      ShellStep "deploy" (gitHub "acme/app" "main")
        ["npm ci"; "npm run build"; "npx cdk synth"] /\
    synth (cp_props cp) <>
      ShellStep "deploy"
        (gitHub (unset_fallback empty_branch_env "GITHUB_ORG" "undefined-github-org"
                 +:+ "/" +:+
                 unset_fallback empty_branch_env "GITHUB_REPO" "undefined-github-repo")
                (unset_fallback empty_branch_env "GITHUB_BRANCH" "main"))
        ["npm ci"; "npm run build"; "npx cdk synth"].
Proof.
  split; [vm_compute; reflexivity|]. split; [vm_compute; reflexivity|].
  eexists _, _, _. split.
  - apply constructor_run; [apply other_scope_fresh|apply other_scope_unsupported].
  - split; [reflexivity|]. split; [vm_compute; reflexivity|].
    vm_compute. discriminate.
Qed.

(** C1.  With one cross-region support stack, the pipeline's artifact
    bucket logs to the name of the access-log bucket under logs/, but the
    replication bucket of the support stack logs to the literal
    MultiAccountAccessLogsBucket, the construct id, which is not the name of
    the access-log bucket: that name is generated, the bucket having been
    created without one. *)
Theorem cross_region_bucket_logs_to_the_construct_id :
  exists s w support bucket r,
    new_CdkPipelineStack two_region_env ["us-west-2"] "CdkPipelineStack"
      (initial [] []) = Ok (s, w) /\
    cfnBuckets w !! artifactBucket s =
      Some (logging (bucketName (accessLogsBucket s))) /\
    bp_bucketName <$> b_props (accessLogsBucket s) = Some None /\
    bucketName (accessLogsBucket s) =
      RefToken ["CdkPipelineStack"; "MultiAccountAccessLogsBucket"; "Resource"] /\
    support ∈ appChildren w /\
    constructorName support = "CrossRegionSupportStack" /\
    replicationBucket support = Some bucket /\
    defaultChild bucket = Some r /\
    cfnBuckets w !! r = Some (logging (Lit "MultiAccountAccessLogsBucket")) /\
    cfnBuckets w !! r <> Some (logging (bucketName (accessLogsBucket s))).
Proof.
  eexists _, _, (supportStack 1 0 "us-west-2"), _, _. split.
  - apply constructor_run; [apply not_elem_of_nil|constructor].
  - cbn. repeat split; try reflexivity.
    + apply list_elem_of_In. simpl. right. left. reflexivity.
    + discriminate.
Qed.

(** C9.  When no child of the scope is a cross-region support stack, the
    loop that wires access logging to the cross-region buckets completes
    without an exception and leaves the world as it found it. *)
Theorem wiring_without_support_stacks_changes_nothing
    (children : list Construct) (name prefix : string) (w : World) :
  (forall c, c ∈ children -> constructorName c <> "CrossRegionSupportStack") ->
  wireCrossRegion children name prefix w = Ok (tt, w).
Proof.
  intros H. apply wireCrossRegion_skip. by apply Forall_forall.
Qed.

Lemma wiring_without_support_stacks_changes_nothing_witness :
  wireCrossRegion (other_scope ++ [stackNode "CdkPipelineStack"])
    "MultiAccountAccessLogsBucket" "logs/" (initial other_scope [no_logging]) =
  Ok (tt, initial other_scope [no_logging]).
Proof.
  apply (wiring_without_support_stacks_changes_nothing
           (other_scope ++ [stackNode "CdkPipelineStack"])
           "MultiAccountAccessLogsBucket" "logs/" (initial other_scope [no_logging])).
  intros c Hc. apply list_elem_of_In in Hc. simpl in Hc.
  destruct Hc as [<-|[<-|[]]]; simpl; discriminate.
Defined.

(** A child that carries the class name of a support stack without its
    bucket makes the loop raise a TypeError. *)
Example wiring_a_stack_without_bucket_throws :
  exists e,
    wireCrossRegion
      [{| constructorName := "CrossRegionSupportStack"; c_id := "Impostor";
          replicationBucket := None |}]
      "MultiAccountAccessLogsBucket" "logs/" (initial [] []) = Throw (TypeError e).
Proof. eexists. reflexivity. Qed.

(** Building twice, or adding a wave after the build, is refused. *)
Example addWave_after_build_throws :
  exists e,
    (p <- new_CodePipeline "Pipeline" (the_props (settings ∅)) ;;
     buildPipeline "Stack" p [] ;;;
     addWave p "Late" None) (initial [] []) = Throw (Error e).
Proof. eexists. reflexivity. Qed.

(** ** Executions, on the graph of the stack *)

Example approval_opens_the_primary_wave :
  Orchestrator.begun
    (Orchestrator.log
       (Orchestrator.execute the_graph
          [Orchestrator.Finished "dev"; Orchestrator.Tick; Orchestrator.Finished "qa";
           Orchestrator.Tick; Orchestrator.Tick;
           Orchestrator.Approved "ProdManualApproval"])) =
  [ ("DEV-and-QA-Deployments", "dev"); ("DEV-and-QA-Deployments", "qa");
    ("Primary-DB-Region-Deployments", "stg-primary");
    ("Primary-DB-Region-Deployments", "prd-primary") ].
Proof. vm_compute. reflexivity. Qed.

Example without_approval_the_primary_wave_waits :
  Orchestrator.begun
    (Orchestrator.log
       (Orchestrator.execute the_graph
          ([Orchestrator.Approved "ProdManualApproval";
            Orchestrator.Finished "dev"; Orchestrator.Finished "qa"] ++
           replicate 1000 Orchestrator.Tick))) =
  [ ("DEV-and-QA-Deployments", "dev"); ("DEV-and-QA-Deployments", "qa") ].
Proof. vm_compute. reflexivity. Qed.

Example rejection_halts_the_pipeline :
  Orchestrator.phase
    (Orchestrator.execute the_graph
       [Orchestrator.Finished "dev"; Orchestrator.Finished "qa";
        Orchestrator.Rejected "ProdManualApproval";
        Orchestrator.Approved "ProdManualApproval"]) = Orchestrator.Halted.
Proof. vm_compute. reflexivity. Qed.

(** ** Lambda handler B *)

(** The serialisation of a small event, with two spaces of indentation. *)
Example stringify_event :
  LambdaB.JSON_stringify string (fun s => s)
    (LambdaB.JObject
       [ ("path", LambdaB.JString "/graphql");
         ("retries", LambdaB.JNumber "3");
         ("flags", LambdaB.JArray [LambdaB.JBool true; LambdaB.JNull]);
         ("headers", LambdaB.JObject []) ]) =
  LambdaB.join LambdaB.newline
    [ "{";
      "  " +:+ LambdaB.dquote +:+ "path" +:+ LambdaB.dquote +:+ ": " +:+
        LambdaB.dquote +:+ "/graphql" +:+ LambdaB.dquote +:+ ",";
      "  " +:+ LambdaB.dquote +:+ "retries" +:+ LambdaB.dquote +:+ ": 3,";
      "  " +:+ LambdaB.dquote +:+ "flags" +:+ LambdaB.dquote +:+ ": [";
      "    true,";
      "    null";
      "  ],";
      "  " +:+ LambdaB.dquote +:+ "headers" +:+ LambdaB.dquote +:+ ": {}";
      "}" ].
Proof. vm_compute. reflexivity. Qed.

Example stringify_escapes :
  LambdaB.quote ("a" +:+ LambdaB.dquote +:+ LambdaB.newline +:+ LambdaB.backslash) =
  LambdaB.dquote +:+ "a" +:+ LambdaB.backslash +:+ LambdaB.dquote +:+
  LambdaB.backslash +:+ "n" +:+ LambdaB.backslash +:+ LambdaB.backslash +:+
  LambdaB.dquote.
Proof. vm_compute. reflexivity. Qed.

(** ** Lambda handler A *)

Section HandlerA.
Import LambdaA.

Variables Schema Resolvers Plugin Handler : Type.
Variable typeDefs : Schema.
Variable resolvers : Resolvers.
Variable playground : Plugin.
Variable createHandler : Config Schema Resolvers Plugin -> Handler.

Local Abbreviation evaluate :=
  (LambdaA.evaluate Schema Resolvers Plugin Handler typeDefs resolvers
     playground createHandler).

(** The call [createConnection()] never throws: it returns a new promise,
    to which nothing is attached, that settles the way [db()] went. *)
Lemma createConnection_floating (db : DbCall) (heap : list Floating) :
  exists heap',
    createConnection db heap = (length heap', heap' ++
      [{| outcome := match db with Throws e => Rejected e | Returns o => o end;
          reactions := 0 |}]) /\
    (forall p f, heap !! p = Some f -> heap' !! p = Some f).
Proof.
  destruct db as [e|o].
  - exists heap. split; [reflexivity|done].
  - exists (heap ++ [{| outcome := o; reactions := 1 |}]).
    split.
    + cbv [createConnection async createConnection_body new_promise await].
      rewrite lookup_app_r, Nat.sub_diag by done. cbn [lookup list_lookup outcome reactions].
      rewrite insert_app_r_alt, Nat.sub_diag by done. cbn [insert list_insert].
      by destruct o.
    + intros p f Hp. by apply lookup_app_l_Some.
Qed.

(** C10.  Whichever way the connection attempt goes -- [db()] throws, or
    its promise stays pending, is fulfilled or is rejected -- evaluating the
    module completes and exports the same handler, built from the same
    server configuration; the promise of the connection attempt is left
    with no reaction attached, so its outcome, a failure included, reaches
    no code of the module. *)
Theorem connection_outcome_is_never_observed (db db' : DbCall) :
  exists connection heap heap',
    evaluate db =
      Ok {| handler := createHandler
                         {| cfg_typeDefs := typeDefs; cfg_resolvers := resolvers;
                            introspection := true; plugins := [playground] |};
            promises := heap |} /\
    evaluate db' =
      Ok {| handler := createHandler
                         {| cfg_typeDefs := typeDefs; cfg_resolvers := resolvers;
                            introspection := true; plugins := [playground] |};
            promises := heap' |} /\
    createConnection db [] = (connection, heap) /\
    heap !! connection =
      Some {| outcome := match db with Throws e => Rejected e | Returns o => o end;
              reactions := 0 |}.
Proof.
  destruct (createConnection_floating db []) as (h & Hh & _).
  destruct (createConnection_floating db' []) as (h' & Hh' & _).
  eexists _, _, _. unfold LambdaA.evaluate. rewrite Hh, Hh'.
  repeat split. by rewrite lookup_app_r, Nat.sub_diag.
Qed.

End HandlerA.

(** A rejected connection leaves a rejected promise behind, with nothing
    attached to it; the promise returned by [db()] has the one reaction of
    the [await]. *)
Example rejected_connection_is_left_floating :
  LambdaA.createConnection
    (LambdaA.Returns (LambdaA.Rejected (Error "ECONNREFUSED"))) [] =
  (1, [ {| LambdaA.outcome := LambdaA.Rejected (Error "ECONNREFUSED");
           LambdaA.reactions := 1 |};
        {| LambdaA.outcome := LambdaA.Rejected (Error "ECONNREFUSED");
           LambdaA.reactions := 0 |} ]).
Proof. reflexivity. Qed.

(** ** The access-logging loop on any scope *)

Section Loop.
Import Wiring.

Variable name prefix : string.

Local Abbreviation cfg :=
  {| destinationBucketName := Lit name; logFilePrefix := prefix |}.

Lemma wired_target (n : nat) (c : Construct) :
  wired n c -> forall r, target c = Some r -> r < n.
Proof.
  unfold wired, target. intros H r. case_bool_decide as Hn; [|done].
  destruct (H Hn) as (b & r' & -> & Hr & Hlt). cbn. rewrite Hr. by intros [= <-].
Qed.

Lemma wired_mono (n m : nat) (c : Construct) : n <= m -> wired n c -> wired m c.
Proof.
  intros Hnm H Hc. destruct (H Hc) as (b & r & ? & ? & ?). exists b, r. repeat split; [done..|lia].
Qed.

Lemma length_rewire (children : list Construct) (heap : list CfnBucket) :
  length (rewire cfg children heap) = length heap.
Proof.
  revert heap. induction children as [|c rest IH]; intros heap; [done|].
  cbn [rewire]. rewrite IH. destruct (target c); [apply length_insert|done].
Qed.

(** A bucket that is the target of no child is as it was. *)
Lemma rewire_lookup_other (children : list Construct) (heap : list CfnBucket) (j : nat) :
  j ∉ targets children -> rewire cfg children heap !! j = heap !! j.
Proof.
  revert heap. induction children as [|c rest IH]; intros heap Hj; [done|].
  cbn [rewire]. unfold targets in Hj. cbn [omap list_omap] in Hj.
  destruct (target c) as [r|].
  - apply not_elem_of_cons in Hj as [Hne Hj].
    rewrite (IH _ Hj). by apply list_lookup_insert_ne.
  - by apply IH.
Qed.

(** A bucket that is the target of some child holds the configuration. *)
Lemma rewire_lookup_target (children : list Construct) (heap : list CfnBucket) (j : nat) :
  j ∈ targets children -> j < length heap ->
  rewire cfg children heap !! j = Some {| loggingConfiguration := Some cfg |}.
Proof.
  revert heap. induction children as [|c rest IH]; intros heap Hj Hlt.
  - by apply elem_of_nil in Hj.
  - cbn [rewire]. unfold targets in Hj. cbn [omap list_omap] in Hj.
    destruct (decide (j ∈ targets rest)) as [Hin|Hout].
    + apply IH; [done|]. destruct (target c); [by rewrite length_insert|done].
    + destruct (target c) as [r|]; [|done].
      apply elem_of_cons in Hj as [->|Hj]; [|done].
      rewrite (rewire_lookup_other _ _ _ Hout). by apply list_lookup_insert_eq.
Qed.

(** On children it can visit, the loop returns normally and changes the
    buckets, and nothing else, to [rewire]. *)
Lemma wireCrossRegion_run (children : list Construct) (w : World) :
  Forall (wired (length (cfnBuckets w))) children ->
  wireCrossRegion children name prefix w =
  Ok (tt, with_cfnBuckets (rewire cfg children (cfnBuckets w)) w).
Proof.
  revert w. induction children as [|c rest IH]; intros w H.
  - by destruct w.
  - apply Forall_cons in H as [Hc Hrest].
    cbn [wireCrossRegion rewire]. unfold target. case_bool_decide as Hn.
    + destruct (Hc Hn) as (b & r & Hb & Hr & Hlt). rewrite Hb. cbn [mbind option_bind].
      cbv [bind defined ret]. rewrite !Hr.
      rewrite set_loggingConfiguration_run by done.
      rewrite IH by (cbn; by rewrite length_insert). reflexivity.
    + cbv [bind ret]. by apply IH.
Qed.

(** Buckets beyond the ones the children refer to are carried along. *)
Lemma rewire_app_l (children : list Construct) (h1 h2 : list CfnBucket) :
  Forall (wired (length h1)) children ->
  rewire cfg children (h1 ++ h2) = rewire cfg children h1 ++ h2.
Proof.
  revert h1. induction children as [|c rest IH]; intros h1 H; [done|].
  apply Forall_cons in H as [Hc Hrest]. cbn [rewire].
  destruct (target c) as [r|] eqn:Hr; [|by apply IH].
  rewrite insert_app_l by (by eapply wired_target).
  apply IH. by rewrite length_insert.
Qed.

(** Without a support stack among the children nothing is assigned. *)
Lemma rewire_unsupported (children : list Construct) (heap : list CfnBucket) :
  Forall (fun c => constructorName c <> "CrossRegionSupportStack") children ->
  rewire cfg children heap = heap.
Proof.
  induction 1 as [|c rest Hc _ IH]; [done|].
  cbn [rewire]. unfold target. by rewrite bool_decide_eq_false_2.
Qed.

Lemma targets_bound (n : nat) (children : list Construct) (r : nat) :
  Forall (wired n) children -> r ∈ targets children -> r < n.
Proof.
  intros H Hr. apply list_elem_of_omap in Hr as (c & Hc & Hr).
  rewrite Forall_forall in H. by eapply wired_target; [apply H|].
Qed.

(** X1.  On children it can visit, the loop returns normally; it changes
    nothing but logging configurations; the bucket of every support stack
    among the children ends with the literal destination and the prefix,
    whatever it held, and every other bucket is as it was. *)
Theorem wiring_assigns_exactly_the_support_buckets
    (children : list Construct) (w : World) :
  Forall (wired (length (cfnBuckets w))) children ->
  exists w',
    wireCrossRegion children name prefix w = Ok (tt, w') /\
    appChildren w' = appChildren w /\
    stackChildren w' = stackChildren w /\
    waves w' = waves w /\
    pipelines w' = pipelines w /\
    suppressions w' = suppressions w /\
    length (cfnBuckets w') = length (cfnBuckets w) /\
    (forall r, r ∈ targets children ->
       cfnBuckets w' !! r =
         Some {| loggingConfiguration :=
                   Some {| destinationBucketName := Lit name;
                           logFilePrefix := prefix |} |}) /\
    (forall j, j ∉ targets children -> cfnBuckets w' !! j = cfnBuckets w !! j).
Proof.
  intros H. eexists. split; [by apply wireCrossRegion_run|].
  cbn. repeat split.
  - apply length_rewire.
  - intros r Hr. apply rewire_lookup_target; [done|]. by eapply targets_bound.
  - intros j Hj. by apply rewire_lookup_other.
Qed.

Lemma rewire_idempotent (children : list Construct) (heap : list CfnBucket) :
  rewire cfg children (rewire cfg children heap) = rewire cfg children heap.
Proof.
  apply list_eq. intros j.
  destruct (decide (j ∈ targets children)) as [Hin|Hout].
  - destruct (decide (j < length heap)) as [Hlt|Hge].
    + rewrite !rewire_lookup_target; [done..|]. by rewrite length_rewire.
    + rewrite !lookup_ge_None_2; [done|rewrite ?length_rewire; lia..].
  - by rewrite !rewire_lookup_other.
Qed.

(** X2.  Running the loop a second time changes nothing more. *)
Theorem wiring_twice_is_wiring_once (children : list Construct) (w : World) :
  Forall (wired (length (cfnBuckets w))) children ->
  (wireCrossRegion children name prefix ;;; wireCrossRegion children name prefix) w =
  wireCrossRegion children name prefix w.
Proof.
  intros H. erewrite bind_run by (by apply wireCrossRegion_run).
  rewrite !wireCrossRegion_run; [|done|by cbn; rewrite length_rewire].
  cbn. by rewrite rewire_idempotent.
Qed.

Lemma rewire_Permutation (children children' : list Construct) (heap : list CfnBucket) :
  children ≡ₚ children' -> rewire cfg children heap = rewire cfg children' heap.
Proof.
  intros Hp. apply list_eq. intros j.
  assert (Ht : targets children ≡ₚ targets children') by (unfold targets; by rewrite Hp).
  destruct (decide (j ∈ targets children)) as [Hin|Hout].
  - destruct (decide (j < length heap)) as [Hlt|Hge].
    + rewrite (rewire_lookup_target children) by done.
      by rewrite (rewire_lookup_target children') by (by rewrite <- ?Ht).
    + rewrite !lookup_ge_None_2; [done|rewrite ?length_rewire; lia..].
  - rewrite (rewire_lookup_other children) by done.
    by rewrite (rewire_lookup_other children') by (by rewrite <- Ht).
Qed.

(** X3.  When the loop can visit every child without a TypeError (each
    child that carries the class name of a support stack has a replication
    bucket whose default child is a bucket of the heap), its outcome does not
    depend on the order in which the scope lists the children: any
    permutation of them gives the same result. *)
Theorem wiring_ignores_the_order_of_children
    (children children' : list Construct) (w : World) :
  children ≡ₚ children' ->
  Forall (wired (length (cfnBuckets w))) children ->
  wireCrossRegion children name prefix w = wireCrossRegion children' name prefix w.
Proof.
  intros Hp H.
  rewrite !wireCrossRegion_run; [|by rewrite <- Hp|done].
  by rewrite (rewire_Permutation _ _ _ Hp).
Qed.

(** X4.  A child that carries the class name of a support stack but has no
    replication bucket, or whose replication bucket has no default child,
    makes the loop raise a TypeError, once the children before it have been
    visited. *)
Theorem wiring_throws_on_a_support_stack_without_bucket
    (visited rest : list Construct) (c : Construct) (w : World) :
  Forall (wired (length (cfnBuckets w))) visited ->
  constructorName c = "CrossRegionSupportStack" ->
  replicationBucket c ≫= defaultChild = None ->
  exists msg,
    wireCrossRegion (visited ++ c :: rest) name prefix w = Throw (TypeError msg).
Proof.
  intros H Hc Hnone. rewrite wireCrossRegion_app.
  erewrite bind_run by (by apply wireCrossRegion_run).
  cbn [wireCrossRegion]. rewrite bool_decide_eq_true_2 by done.
  destruct (replicationBucket c) as [b|]; cbn in Hnone.
  - cbv [bind defined ret]. rewrite Hnone. eexists. reflexivity.
  - eexists. reflexivity.
Qed.

End Loop.

(** ** The constructor on any scope the loop can visit *)

Section Rewiring.
Import Wiring.

(** The configuration the loop assigns. *)
Local Abbreviation literal_cfg :=
  {| destinationBucketName := Lit "MultiAccountAccessLogsBucket";
     logFilePrefix := "logs/" |}.

(** The world in which the loop over [scope.node.children] starts. *)
Local Abbreviation before_wiring c supportRegions id scope buckets :=
  (with_cfnBuckets
     (buckets ++
      [logging (bucketName (the_accessLogsBucket id (length buckets + 1 + length supportRegions)))] ++
      replicate (length supportRegions) no_logging ++ [no_logging])
     (the_world c supportRegions id scope buckets)).

(** Up to the loop, the constructor needs nothing of the scope but a free
    id. *)
Lemma constructor_until_wiring (process_env : gmap string string)
    (supportRegions : list string) (id : string)
    (scope : list Construct) (buckets : list CfnBucket) :
  id ∉ c_id <$> scope ->
  new_CdkPipelineStack process_env supportRegions id (initial scope buckets) =
  (wireCrossRegion
     (scope ++ [stackNode id] ++ imap (supportStack (length buckets + 1)) supportRegions)
     "MultiAccountAccessLogsBucket" "logs/" ;;;
   ret (the_locals (settings process_env) id (length buckets) (length supportRegions)))
    (before_wiring (settings process_env) supportRegions id scope buckets).
Proof.
  intros Hid. unfold new_CdkPipelineStack.
  set (c := settings process_env).
  change (or_else (process_env !! "GITHUB_ORG") "undefined-github-org") with (githubOrg c).
  change (or_else (process_env !! "GITHUB_REPO") "undefined-github-repo") with (githubRepo c).
  change (or_else (process_env !! "GITHUB_BRANCH") "main") with (githubBranch c).
  change (or_else (process_env !! "DEV_ACCOUNT_ID") "undefined") with (devAccountId c).
  change (or_else (process_env !! "STG_ACCOUNT_ID") "undefined") with (stgAccountId c).
  change (or_else (process_env !! "PRD_ACCOUNT_ID") "undefined") with (prdAccountId c).
  change (or_else (process_env !! "PRIMARY_REGION") "undefined") with (primaryRegion c).
  change (or_else (process_env !! "SECONDARY_REGION") "undefined") with (secondaryRegion c).
  clearbody c. destruct c as [org repo branch devA stgA prdA r1 r2].
  cbn [githubOrg githubRepo githubBranch devAccountId stgAccountId
       prdAccountId primaryRegion secondaryRegion].
  cbv zeta.
  erewrite bind_run.
  2:{ cbv [new_Stack initial bind get]. cbn [appChildren].
      rewrite bool_decide_eq_false_2 by done. reflexivity. }
  cbv [with_appChildren]. cbn [appChildren stackChildren waves cfnBuckets pipelines suppressions].
  change ([{| constructorName := "CdkPipelineStack"; c_id := id;
              replicationBucket := None |}]) with [stackNode id].
  remember (org +:+ "/" +:+ repo) as repository eqn:Hrepository.
  remember (scope ++ [stackNode id]) as A eqn:HA.
  do 17 (step by (vm_compute; reflexivity)).
  erewrite bind_run.
  2:{ unfold buildPipeline.
      step by reflexivity. step by reflexivity.
      cbn [cp_built].
      step by (vm_compute; reflexivity).
      step by (apply new_CfnBucket_run).
      step by (apply createSupportStacks_run).
      step by reflexivity.
      cbv [put with_pipelines with_appChildren with_cfnBuckets].
      cbn [appChildren stackChildren waves cfnBuckets pipelines suppressions
           cp_id cp_props cp_waves insert list_insert].
      reflexivity. }
  erewrite bind_run.
  2:{ unfold new_Bucket.
      step by (apply addChild_run; vm_compute; reflexivity).
      cbn [bp_autoDeleteObjects bp_removalPolicy bp_bucketName].
      step by (apply new_CfnBucket_run).
      step by (apply getOrCreateProvider_run; vm_compute; reflexivity).
      reflexivity. }
  cbv [with_stackChildren with_cfnBuckets].
  cbn [appChildren stackChildren waves cfnBuckets pipelines suppressions app].
  step by reflexivity. step by reflexivity.
  cbn [bucketName].
  erewrite bind_run.
  2:{ apply set_loggingConfiguration_run. cbn [cfnBuckets].
      rewrite !length_app. cbn [length]. lia. }
  cbv [with_cfnBuckets].
  cbn [appChildren stackChildren waves cfnBuckets pipelines suppressions].
  step by reflexivity.
  cbn [appChildren].
  rewrite <- !app_assoc.
  rewrite insert_app_r_alt, Nat.sub_diag by lia.
  cbn [insert list_insert app].
  cbv [the_locals the_world].
  cbn [appChildren stackChildren waves cfnBuckets pipelines suppressions].
  subst A repository.
  rewrite !length_app, ?length_replicate. cbn [length].
  rewrite <- !app_assoc. cbn [app].
  cbv [with_cfnBuckets the_accessLogsBucket].
  cbn [appChildren stackChildren waves cfnBuckets pipelines suppressions bucketName].
  rewrite ?length_replicate.
  replace (length buckets + 1 + length supportRegions)
    with (length buckets + S (length supportRegions)) by lia.
  reflexivity.
Qed.

(** The constructor on a scope whose support stacks, if any, the loop can
    visit: the replication buckets of those stacks are rewired as well. *)
Lemma constructor_run_on_wired_scope (process_env : gmap string string)
    (supportRegions : list string) (id : string)
    (scope : list Construct) (buckets : list CfnBucket) :
  id ∉ c_id <$> scope ->
  Forall (wired (length buckets)) scope ->
  new_CdkPipelineStack process_env supportRegions id (initial scope buckets) =
  Ok (the_locals (settings process_env) id (length buckets) (length supportRegions),
      with_cfnBuckets
        (rewire literal_cfg scope buckets ++
         [logging (bucketName (the_accessLogsBucket id (length buckets + 1 + length supportRegions)))] ++
         replicate (length supportRegions) (logging (Lit "MultiAccountAccessLogsBucket")) ++
         [no_logging])
        (the_world (settings process_env) supportRegions id scope buckets)).
Proof.
  intros Hid Hscope. rewrite constructor_until_wiring by done.
  set (token := logging (bucketName (the_accessLogsBucket id
                  (length buckets + 1 + length supportRegions)))).
  set (world := the_world (settings process_env) supportRegions id scope buckets).
  erewrite bind_run; [reflexivity|].
  rewrite wireCrossRegion_app.
  erewrite bind_run.
  2:{ apply wireCrossRegion_run. cbn [cfnBuckets with_cfnBuckets].
      eapply Forall_impl; [exact Hscope|]. intros c. apply wired_mono.
      rewrite length_app. lia. }
  cbn [cfnBuckets with_cfnBuckets]. rewrite rewire_app_l by done.
  cbn [app wireCrossRegion constructorName stackNode].
  rewrite bool_decide_eq_false_2 by done.
  erewrite bind_run by reflexivity.
  replace (supportStack (length buckets + 1))
    with (supportStack (length (rewire literal_cfg scope buckets ++ [token])))
    by (rewrite length_app, length_rewire; reflexivity).
  erewrite wireCrossRegion_created with (x := no_logging) (after := [no_logging]).
  - rewrite <- app_assoc. reflexivity.
  - cbn [cfnBuckets]. by rewrite <- app_assoc.
Qed.

End Rewiring.

Lemma or_else_nonempty (v : option string) (fallback : string) :
  fallback <> EmptyString -> or_else v fallback <> EmptyString.
Proof. intros H. by destruct v as [[|c s]|]. Qed.

(** What one invocation of handler B returns and leaves on the console. *)
Lemma one_invocation
    (Number : Type) (Number_toString : Number -> string)
    (event : LambdaB.Json Number) (context : LambdaB.Context) (out : list string) :
  LambdaB.handler Number Number_toString event context out =
  (LambdaB.Fulfilled (LambdaB.logStreamName context),
   out ++ ["EVENT: " +:+ LambdaB.newline +:+
           LambdaB.JSON_stringify Number Number_toString event]).
Proof. reflexivity. Qed.

Section OnAnyScope.
Import Wiring.

Variable process_env : gmap string string.
Variable supportRegions : list string.
Variable id : string.
Variable scope : list Construct.
Variable buckets : list CfnBucket.

(** The stack's id is free in the application scope, and the loop can visit
    the support stacks the scope already holds. *)
Hypothesis fresh : id ∉ c_id <$> scope.
Hypothesis visitable : Forall (wired (length buckets)) scope.

(** X5.  The constructor leaves the children the scope already has in
    place and adds itself and the support stacks after them.  Of the buckets
    that exist before, those that are replication buckets of support stacks
    of the scope end up logging to the literal MultiAccountAccessLogsBucket,
    whatever they logged to; the others are as they were. *)
Theorem constructor_rewires_support_stacks_of_the_scope :
  exists s w,
    new_CdkPipelineStack process_env supportRegions id (initial scope buckets)
      = Ok (s, w) /\
    appChildren w =
      scope ++ [stackNode id] ++
      imap (supportStack (length buckets + 1)) supportRegions /\
    length (cfnBuckets w) = length buckets + length supportRegions + 2 /\
    (forall r, r ∈ targets scope ->
       cfnBuckets w !! r = Some (logging (Lit "MultiAccountAccessLogsBucket"))) /\
    (forall j, j < length buckets -> j ∉ targets scope ->
       cfnBuckets w !! j = buckets !! j).
Proof.
  eexists _, _. split; [by apply constructor_run_on_wired_scope|].
  cbn [cfnBuckets appChildren with_cfnBuckets the_world]. repeat split.
  - rewrite !length_app, length_rewire, length_replicate. cbn. lia.
  - intros r Hr. pose proof (targets_bound _ _ _ visitable Hr) as Hlt.
    rewrite lookup_app_l by (by rewrite length_rewire).
    by apply rewire_lookup_target.
  - intros j Hlt Hj.
    rewrite lookup_app_l by (by rewrite length_rewire).
    by apply rewire_lookup_other.
Qed.

(** X6.  The access-log bucket itself gets no logging configuration, and
    it is the only bucket created by the constructor that has none. *)
Theorem access_log_bucket_alone_is_not_logged :
  exists s w r,
    new_CdkPipelineStack process_env supportRegions id (initial scope buckets)
      = Ok (s, w) /\
    defaultChild (accessLogsBucket s) = Some r /\
    cfnBuckets w !! r = Some {| loggingConfiguration := None |} /\
    (forall j b, length buckets <= j -> cfnBuckets w !! j = Some b ->
       loggingConfiguration b = None -> j = r).
Proof.
  eexists _, _, _. split; [by apply constructor_run_on_wired_scope|].
  cbn [cfnBuckets with_cfnBuckets the_locals accessLogsBucket the_accessLogsBucket
       defaultChild].
  split; [reflexivity|]. split.
  - rewrite !app_assoc.
    rewrite lookup_app_r
      by (rewrite !length_app, length_rewire, length_replicate; cbn; lia).
    rewrite !length_app, length_rewire, length_replicate. cbn [length].
    by replace (length buckets + 1 + length supportRegions -
                (length buckets + 1 + length supportRegions)) with 0 by lia.
  - intros j b Hj Hb Hnone.
    apply lookup_app_Some in Hb as [Hb|[_ Hb]].
    { apply lookup_lt_Some in Hb. rewrite length_rewire in Hb. lia. }
    rewrite length_rewire in Hb.
    destruct (j - length buckets) as [|i] eqn:Hi; cbn in Hb.
    { by injection Hb as <-. }
    apply lookup_app_Some in Hb as [Hb|[Hge Hb]].
    { apply lookup_replicate in Hb as [-> _]. done. }
    rewrite length_replicate in Hge, Hb.
    apply list_lookup_singleton_Some in Hb as [Hz _]. lia.
Qed.

(** X7.  Secrets are replicated from the primary-region stages only: each
    of the two declares the secondary region as its one replication region,
    and the other four stages declare none. *)
Theorem secrets_replicate_from_primaries_only :
  exists s w,
    new_CdkPipelineStack process_env supportRegions id (initial scope buckets)
      = Ok (s, w) /\
    rp_secretReplicationRegions (rds_props (rdsStack (stgPrimary s))) =
      [or_else (process_env !! "SECONDARY_REGION") "undefined"] /\
    rp_secretReplicationRegions (rds_props (rdsStack (prdPrimary s))) =
      [or_else (process_env !! "SECONDARY_REGION") "undefined"] /\
    rp_secretReplicationRegions (rds_props (rdsStack (dev s))) = [] /\
    rp_secretReplicationRegions (rds_props (rdsStack (qa s))) = [] /\
    rp_secretReplicationRegions (rds_props (rdsStack (stgBackup s))) = [] /\
    rp_secretReplicationRegions (rds_props (rdsStack (prdBackup s))) = [].
Proof.
  eexists _, _. split; [by apply constructor_run_on_wired_scope|].
  repeat split; reflexivity.
Qed.

(** X8.  A backup stage always deploys to the account of its primary, and
    qa to the account of dev.  It deploys to the very environment of its
    primary exactly when the two region variables resolve to the same
    region -- in particular when neither is set, both falling back to the
    same word. *)
Theorem backup_environment_collapses_with_equal_regions :
  exists s w,
    new_CdkPipelineStack process_env supportRegions id (initial scope buckets)
      = Ok (s, w) /\
    account <$> stageEnv (stgBackup s) = account <$> stageEnv (stgPrimary s) /\
    account <$> stageEnv (prdBackup s) = account <$> stageEnv (prdPrimary s) /\
    account <$> stageEnv (qa s) = account <$> stageEnv (dev s) /\
    (stageEnv (stgBackup s) = stageEnv (stgPrimary s) <->
       or_else (process_env !! "SECONDARY_REGION") "undefined" =
       or_else (process_env !! "PRIMARY_REGION") "undefined") /\
    (stageEnv (prdBackup s) = stageEnv (prdPrimary s) <->
       or_else (process_env !! "SECONDARY_REGION") "undefined" =
       or_else (process_env !! "PRIMARY_REGION") "undefined") /\
    (process_env !! "PRIMARY_REGION" = None ->
     process_env !! "SECONDARY_REGION" = None ->
     stageEnv (stgBackup s) = stageEnv (stgPrimary s) /\
     stageEnv (prdBackup s) = stageEnv (prdPrimary s) /\
     stageEnv (qa s) = stageEnv (dev s)).
Proof.
  eexists _, _. split; [by apply constructor_run_on_wired_scope|].
  cbn. repeat split; try congruence.
  all: intros H1 H2; by rewrite H1, H2.
Qed.

(** X9.  Whatever the environment, if the framework accepts the
    repository string made of the organisation and repository settings, the
    repository the source step references is an organisation and a
    repository name joined by a slash, neither of them empty or holding a
    slash, the branch is not empty, and no stage is given an empty account
    or region. *)
Theorem settings_are_never_empty (source : CodePipelineSource) :
  gitHub_source
    (or_else (process_env !! "GITHUB_ORG") "undefined-github-org" +:+ "/" +:+
     or_else (process_env !! "GITHUB_REPO") "undefined-github-repo")
    (or_else (process_env !! "GITHUB_BRANCH") "main") = Ok source ->
  exists s w cp org repo branch,
    new_CdkPipelineStack process_env supportRegions id (initial scope buckets)
      = Ok (s, w) /\
    pipelines w !! pipeline s = Some cp /\
    source = gitHub (org +:+ "/" +:+ repo) branch /\
    synth (cp_props cp) =
      ShellStep "deploy" source ["npm ci"; "npm run build"; "npx cdk synth"] /\
    slashes org = 0 /\ slashes repo = 0 /\
    org <> EmptyString /\ repo <> EmptyString /\ branch <> EmptyString /\
    Forall (fun st => exists e, stageEnv st = Some e /\
                        account e <> EmptyString /\ region e <> EmptyString)
      [dev s; qa s; stgPrimary s; prdPrimary s; stgBackup s; prdBackup s].
Proof.
  intros Hsource. apply gitHub_source_Ok in Hsource as (Horg & Hrepo & ->).
  eexists _, _, _, _, _, _. split; [by apply constructor_run_on_wired_scope|].
  cbn. repeat split; try done; try (by apply or_else_nonempty).
  repeat constructor; eexists; (split; [reflexivity|]); split; by apply or_else_nonempty.
Qed.

(** X10.  Every stage the constructor creates is added to exactly one
    wave, with the environment it was created with: the stages of the three
    waves, taken in order, are the six stages in construction order, under
    six different names; and the six stages are children of the stack, in
    that order. *)
Theorem every_stage_is_deployed_once_with_its_environment :
  exists s w cp wvs,
    new_CdkPipelineStack process_env supportRegions id (initial scope buckets)
      = Ok (s, w) /\
    pipelines w !! pipeline s = Some cp /\
    mapM (fun r => waves w !! r) (cp_waves cp) = Some wvs /\
    concat (wave_stages <$> wvs) =
      deployment <$> [dev s; qa s; stgPrimary s; prdPrimary s; stgBackup s; prdBackup s] /\
    NoDup (sd_stageName <$> concat (wave_stages <$> wvs)) /\
    (stageName <$> [dev s; qa s; stgPrimary s; prdPrimary s; stgBackup s; prdBackup s])
      `sublist_of` stackChildren w.
Proof.
  eexists _, _, _, _. split; [by apply constructor_run_on_wired_scope|].
  cbn. repeat split; try reflexivity.
  - apply (bool_decide_unpack _). vm_compute. exact I.
  - apply sublist_cons. do 6 apply sublist_skip. apply sublist_nil_l.
Qed.

(** X11.  The manual approval of the primary wave is the only gate of the
    pipeline: no other wave has a pre-condition, and no wave has a step to
    run after its stages. *)
Theorem only_the_primary_wave_is_gated :
  exists s w cp wvs,
    new_CdkPipelineStack process_env supportRegions id (initial scope buckets)
      = Ok (s, w) /\
    pipelines w !! pipeline s = Some cp /\
    mapM (fun r => waves w !! r) (cp_waves cp) = Some wvs /\
    (forall wv, wv ∈ wvs -> wave_post wv = []) /\
    (forall wv, wv ∈ wvs -> wave_pre wv <> [] ->
       wave_id wv = "Primary-DB-Region-Deployments" /\
       wave_pre wv = [ManualApprovalStep "ProdManualApproval"]).
Proof.
  eexists _, _, _, _. split; [by apply constructor_run_on_wired_scope|].
  cbn. split; [reflexivity|]. split; [reflexivity|]. split.
  - intros wv Hwv.
    repeat (apply elem_of_cons in Hwv as [->|Hwv]; [reflexivity|]).
    by apply elem_of_nil in Hwv.
  - intros wv Hwv Hpre.
    repeat (apply elem_of_cons in Hwv as [->|Hwv]; [by try done|]).
    by apply elem_of_nil in Hwv.
Qed.

(** X12.  The bucket the constructor takes from the built pipeline as its
    artifact bucket ends up logging to the name of the access-log bucket,
    under logs/; that name is a token of the bucket's resource, the bucket
    having been created without a name; and the loop over the children of
    the scope leaves this configuration alone. *)
Theorem artifact_bucket_logs_to_the_generated_name :
  exists s w built,
    new_CdkPipelineStack process_env supportRegions id (initial scope buckets)
      = Ok (s, w) /\
    Cdk.pipeline (pipeline s) w = Ok (built, w) /\
    defaultChild (Cdk.artifactBucket built) = Some (artifactBucket s) /\
    (artifactBucket s ∉ targets (appChildren w)) /\
    bucketName (accessLogsBucket s) =
      RefToken [id; "MultiAccountAccessLogsBucket"; "Resource"] /\
    cfnBuckets w !! artifactBucket s =
      Some {| loggingConfiguration :=
                Some {| destinationBucketName := bucketName (accessLogsBucket s);
                        logFilePrefix := "logs/" |} |}.
Proof.
  eexists _, _, _. split; [by apply constructor_run_on_wired_scope|].
  cbn [the_locals pipeline artifactBucket accessLogsBucket the_accessLogsBucket
       bucketName appChildren cfnBuckets with_cfnBuckets the_world].
  repeat split.
  - intros Hin. unfold targets in Hin.
    rewrite !omap_app in Hin. apply elem_of_app in Hin as [Hin|Hin].
    + pose proof (targets_bound _ _ _ visitable Hin). lia.
    + cbn in Hin. apply list_elem_of_omap in Hin as (c & Hc & Ht).
      apply list_elem_of_lookup in Hc as (i & Hi).
      rewrite list_lookup_imap in Hi.
      destruct (supportRegions !! i) as [rg|]; [|done].
      injection Hi as <-. cbn in Ht. injection Ht as Ht. lia.
  - rewrite lookup_app_r by (by rewrite length_rewire).
    by rewrite length_rewire, Nat.sub_diag.
Qed.

End OnAnyScope.

(** ** Consecutive invocations of handler B *)

(** X13.  Invoked on one request after another, handler B resolves each
    invocation to the log-stream name of its own context and appends one
    line per request to the console, in the order of the invocations, each
    made of its own event; what was on the console stays. *)
Theorem invocations_log_in_order
    (Number : Type) (Number_toString : Number -> string)
    (requests : list (LambdaB.Json Number * LambdaB.Context)) (out : list string) :
  Container.invoke_all Number Number_toString requests out =
  ((fun request => LambdaB.Fulfilled (LambdaB.logStreamName (snd request))) <$> requests,
   out ++ ((fun request =>
              "EVENT: " +:+ LambdaB.newline +:+
              LambdaB.JSON_stringify Number Number_toString (fst request)) <$> requests)).
Proof.
  revert out. induction requests as [|[event context] rest IH]; intros out.
  - cbn. by rewrite app_nil_r.
  - cbn [Container.invoke_all]. unfold LambdaB.seq at 1.
    rewrite one_invocation.
    unfold LambdaB.seq. rewrite IH. cbn. by rewrite <- app_assoc.
Qed.

(** ** The connection attempt of handler A among other promises *)

(** X14.  Whatever promises exist, the call of [createConnection] leaves
    them as they are, returns a new promise with no reaction that settles
    the way [db()] went, and creates one promise more only when [db()]
    returned one, which then has the single reaction of the [await]. *)
Theorem createConnection_keeps_other_promises
    (db : LambdaA.DbCall) (heap : list LambdaA.Floating) :
  exists connection heap',
    LambdaA.createConnection db heap = (connection, heap') /\
    length heap <= connection /\
    heap' !! connection =
      Some {| LambdaA.outcome :=
                match db with
                | LambdaA.Throws e => LambdaA.Rejected e
                | LambdaA.Returns o => o
                end;
              LambdaA.reactions := 0 |} /\
    (forall p f, heap !! p = Some f -> heap' !! p = Some f) /\
    length heap' =
      length heap + match db with LambdaA.Throws _ => 1 | LambdaA.Returns _ => 2 end /\
    (forall o, db = LambdaA.Returns o ->
       heap' !! length heap =
         Some {| LambdaA.outcome := o; LambdaA.reactions := 1 |}).
Proof.
  destruct db as [e|o].
  - eexists _, _. split; [reflexivity|]. cbn. repeat split.
    + lia.
    + by rewrite lookup_app_r, Nat.sub_diag.
    + intros p f Hp. by apply lookup_app_l_Some.
    + rewrite length_app. cbn. lia.
    + discriminate.
  - exists (S (length heap)),
      (heap ++ [ {| LambdaA.outcome := o; LambdaA.reactions := 1 |};
                 {| LambdaA.outcome := o; LambdaA.reactions := 0 |} ]).
    split.
    + cbv [LambdaA.createConnection LambdaA.async LambdaA.createConnection_body
           LambdaA.new_promise LambdaA.await].
      rewrite lookup_app_r, Nat.sub_diag by done.
      cbn [lookup list_lookup LambdaA.outcome LambdaA.reactions].
      rewrite insert_app_r_alt, Nat.sub_diag by done. cbn [insert list_insert].
      rewrite length_app. cbn [length]. rewrite <- app_assoc. cbn [app].
      replace (length heap + 1) with (S (length heap)) by lia.
      by destruct o.
    + repeat split.
      * lia.
      * rewrite lookup_app_r by lia.
        by replace (S (length heap) - length heap) with 1 by lia.
      * intros p f Hp. by apply lookup_app_l_Some.
      * rewrite length_app. cbn. lia.
      * intros o' [= <-]. by rewrite lookup_app_r, Nat.sub_diag.
Qed.

(** ** The properties above on concrete inputs *)

(** [visit_all]: the loop can visit each child of the shared scope. *)
Ltac visit_all :=
  unfold Wiring.shared_scope;
  repeat (apply Forall_cons; split;
          [intros ?;
           first [discriminate
                 |eexists _, _; split; [reflexivity|]; split; [reflexivity|]; cbn; lia]
          |]);
  apply Forall_nil; exact I.

Lemma constructor_rewires_support_stacks_of_the_scope_witness :
  exists s w,
    new_CdkPipelineStack acme_env ["us-west-2"] "CdkPipelineStack"
      (initial Wiring.shared_scope Wiring.shared_buckets) = Ok (s, w) /\
    appChildren w =
      Wiring.shared_scope ++ [stackNode "CdkPipelineStack"] ++
      imap (supportStack (length Wiring.shared_buckets + 1)) ["us-west-2"] /\
    length (cfnBuckets w) = length Wiring.shared_buckets + length ["us-west-2"] + 2 /\
    (forall r, r ∈ Wiring.targets Wiring.shared_scope ->
       cfnBuckets w !! r = Some (logging (Lit "MultiAccountAccessLogsBucket"))) /\
    (forall j, j < length Wiring.shared_buckets ->
       j ∉ Wiring.targets Wiring.shared_scope ->
       cfnBuckets w !! j = Wiring.shared_buckets !! j).
Proof.
  apply (constructor_rewires_support_stacks_of_the_scope acme_env ["us-west-2"] "CdkPipelineStack"
           Wiring.shared_scope Wiring.shared_buckets).
  - apply (bool_decide_unpack _). vm_compute. exact I.
  - visit_all.
Defined.

Lemma access_log_bucket_alone_is_not_logged_witness :
  exists s w r,
    new_CdkPipelineStack acme_env ["us-west-2"] "CdkPipelineStack"
      (initial Wiring.shared_scope Wiring.shared_buckets) = Ok (s, w) /\
    defaultChild (accessLogsBucket s) = Some r /\
    cfnBuckets w !! r = Some {| loggingConfiguration := None |} /\
    (forall j b, length Wiring.shared_buckets <= j -> cfnBuckets w !! j = Some b ->
       loggingConfiguration b = None -> j = r).
Proof.
  apply (access_log_bucket_alone_is_not_logged acme_env ["us-west-2"] "CdkPipelineStack"
           Wiring.shared_scope Wiring.shared_buckets).
  - apply (bool_decide_unpack _). vm_compute. exact I.
  - visit_all.
Defined.

Lemma secrets_replicate_from_primaries_only_witness :
  exists s w,
    new_CdkPipelineStack acme_env ["us-west-2"] "CdkPipelineStack"
      (initial Wiring.shared_scope Wiring.shared_buckets) = Ok (s, w) /\
    rp_secretReplicationRegions (rds_props (rdsStack (stgPrimary s))) =
      [or_else (acme_env !! "SECONDARY_REGION") "undefined"] /\
    rp_secretReplicationRegions (rds_props (rdsStack (prdPrimary s))) =
      [or_else (acme_env !! "SECONDARY_REGION") "undefined"] /\
    rp_secretReplicationRegions (rds_props (rdsStack (dev s))) = [] /\
    rp_secretReplicationRegions (rds_props (rdsStack (qa s))) = [] /\
    rp_secretReplicationRegions (rds_props (rdsStack (stgBackup s))) = [] /\
    rp_secretReplicationRegions (rds_props (rdsStack (prdBackup s))) = [].
Proof.
  apply (secrets_replicate_from_primaries_only acme_env ["us-west-2"] "CdkPipelineStack"
           Wiring.shared_scope Wiring.shared_buckets).
  - apply (bool_decide_unpack _). vm_compute. exact I.
  - visit_all.
Defined.

Lemma backup_environment_collapses_with_equal_regions_witness :
  exists s w,
    new_CdkPipelineStack acme_env ["us-west-2"] "CdkPipelineStack"
      (initial Wiring.shared_scope Wiring.shared_buckets) = Ok (s, w) /\
    account <$> stageEnv (stgBackup s) = account <$> stageEnv (stgPrimary s) /\
    account <$> stageEnv (prdBackup s) = account <$> stageEnv (prdPrimary s) /\
    account <$> stageEnv (qa s) = account <$> stageEnv (dev s) /\
    (stageEnv (stgBackup s) = stageEnv (stgPrimary s) <->
       or_else (acme_env !! "SECONDARY_REGION") "undefined" =
       or_else (acme_env !! "PRIMARY_REGION") "undefined") /\
    (stageEnv (prdBackup s) = stageEnv (prdPrimary s) <->
       or_else (acme_env !! "SECONDARY_REGION") "undefined" =
       or_else (acme_env !! "PRIMARY_REGION") "undefined") /\
    (acme_env !! "PRIMARY_REGION" = None ->
     acme_env !! "SECONDARY_REGION" = None ->
     stageEnv (stgBackup s) = stageEnv (stgPrimary s) /\
     stageEnv (prdBackup s) = stageEnv (prdPrimary s) /\
     stageEnv (qa s) = stageEnv (dev s)).
Proof.
  apply (backup_environment_collapses_with_equal_regions acme_env ["us-west-2"] "CdkPipelineStack"
           Wiring.shared_scope Wiring.shared_buckets).
  - apply (bool_decide_unpack _). vm_compute. exact I.
  - visit_all.
Defined.

Lemma settings_are_never_empty_witness :
  exists s w cp org repo branch,
    new_CdkPipelineStack acme_env ["us-west-2"] "CdkPipelineStack"
      (initial Wiring.shared_scope Wiring.shared_buckets) = Ok (s, w) /\
    pipelines w !! pipeline s = Some cp /\
    gitHub "acme/app" "release" = gitHub (org +:+ "/" +:+ repo) branch /\
    synth (cp_props cp) =
      ShellStep "deploy" (gitHub "acme/app" "release")
        ["npm ci"; "npm run build"; "npx cdk synth"] /\
    slashes org = 0 /\ slashes repo = 0 /\
    org <> EmptyString /\ repo <> EmptyString /\ branch <> EmptyString /\
    Forall (fun st => exists e, stageEnv st = Some e /\
                        account e <> EmptyString /\ region e <> EmptyString)
      [dev s; qa s; stgPrimary s; prdPrimary s; stgBackup s; prdBackup s].
Proof.
  refine (settings_are_never_empty acme_env ["us-west-2"] "CdkPipelineStack"
            Wiring.shared_scope Wiring.shared_buckets _ _
            (gitHub "acme/app" "release") _).
  - apply (bool_decide_unpack _). vm_compute. exact I.
  - visit_all.
  - vm_compute. reflexivity.
Defined.

Lemma every_stage_is_deployed_once_with_its_environment_witness :
  exists s w cp wvs,
    new_CdkPipelineStack acme_env ["us-west-2"] "CdkPipelineStack"
      (initial Wiring.shared_scope Wiring.shared_buckets) = Ok (s, w) /\
    pipelines w !! pipeline s = Some cp /\
    mapM (fun r => waves w !! r) (cp_waves cp) = Some wvs /\
    concat (wave_stages <$> wvs) =
      deployment <$> [dev s; qa s; stgPrimary s; prdPrimary s; stgBackup s; prdBackup s] /\
    NoDup (sd_stageName <$> concat (wave_stages <$> wvs)) /\
    (stageName <$> [dev s; qa s; stgPrimary s; prdPrimary s; stgBackup s; prdBackup s])
      `sublist_of` stackChildren w.
Proof.
  apply (every_stage_is_deployed_once_with_its_environment acme_env ["us-west-2"] "CdkPipelineStack"
           Wiring.shared_scope Wiring.shared_buckets).
  - apply (bool_decide_unpack _). vm_compute. exact I.
  - visit_all.
Defined.

Lemma only_the_primary_wave_is_gated_witness :
  exists s w cp wvs,
    new_CdkPipelineStack acme_env ["us-west-2"] "CdkPipelineStack"
      (initial Wiring.shared_scope Wiring.shared_buckets) = Ok (s, w) /\
    pipelines w !! pipeline s = Some cp /\
    mapM (fun r => waves w !! r) (cp_waves cp) = Some wvs /\
    (forall wv, wv ∈ wvs -> wave_post wv = []) /\
    (forall wv, wv ∈ wvs -> wave_pre wv <> [] ->
       wave_id wv = "Primary-DB-Region-Deployments" /\
       wave_pre wv = [ManualApprovalStep "ProdManualApproval"]).
Proof.
  apply (only_the_primary_wave_is_gated acme_env ["us-west-2"] "CdkPipelineStack"
           Wiring.shared_scope Wiring.shared_buckets).
  - apply (bool_decide_unpack _). vm_compute. exact I.
  - visit_all.
Defined.

Lemma artifact_bucket_logs_to_the_generated_name_witness :
  exists s w built,
    new_CdkPipelineStack acme_env ["us-west-2"] "CdkPipelineStack"
      (initial Wiring.shared_scope Wiring.shared_buckets) = Ok (s, w) /\
    Cdk.pipeline (pipeline s) w = Ok (built, w) /\
    defaultChild (Cdk.artifactBucket built) = Some (artifactBucket s) /\
    (artifactBucket s ∉ Wiring.targets (appChildren w)) /\
    bucketName (accessLogsBucket s) =
      RefToken ["CdkPipelineStack"; "MultiAccountAccessLogsBucket"; "Resource"] /\
    cfnBuckets w !! artifactBucket s =
      Some {| loggingConfiguration :=
                Some {| destinationBucketName := bucketName (accessLogsBucket s);
                        logFilePrefix := "logs/" |} |}.
Proof.
  apply (artifact_bucket_logs_to_the_generated_name acme_env ["us-west-2"] "CdkPipelineStack"
           Wiring.shared_scope Wiring.shared_buckets).
  - apply (bool_decide_unpack _). vm_compute. exact I.
  - visit_all.
Defined.

Lemma wiring_assigns_exactly_the_support_buckets_witness :
  exists w',
    wireCrossRegion Wiring.shared_scope "MultiAccountAccessLogsBucket" "logs/"
      (initial Wiring.shared_scope Wiring.shared_buckets) = Ok (tt, w') /\
    appChildren w' = appChildren (initial Wiring.shared_scope Wiring.shared_buckets) /\
    stackChildren w' = stackChildren (initial Wiring.shared_scope Wiring.shared_buckets) /\
    waves w' = waves (initial Wiring.shared_scope Wiring.shared_buckets) /\
    pipelines w' = pipelines (initial Wiring.shared_scope Wiring.shared_buckets) /\
    suppressions w' = suppressions (initial Wiring.shared_scope Wiring.shared_buckets) /\
    length (cfnBuckets w') =
      length (cfnBuckets (initial Wiring.shared_scope Wiring.shared_buckets)) /\
    (forall r, r ∈ Wiring.targets Wiring.shared_scope ->
       cfnBuckets w' !! r =
         Some {| loggingConfiguration :=
                   Some {| destinationBucketName := Lit "MultiAccountAccessLogsBucket";
                           logFilePrefix := "logs/" |} |}) /\
    (forall j, j ∉ Wiring.targets Wiring.shared_scope ->
       cfnBuckets w' !! j =
       cfnBuckets (initial Wiring.shared_scope Wiring.shared_buckets) !! j).
Proof.
  apply (wiring_assigns_exactly_the_support_buckets
           "MultiAccountAccessLogsBucket" "logs/" Wiring.shared_scope
           (initial Wiring.shared_scope Wiring.shared_buckets)).
  visit_all.
Defined.

Lemma wiring_twice_is_wiring_once_witness :
  (wireCrossRegion Wiring.shared_scope "MultiAccountAccessLogsBucket" "logs/" ;;;
   wireCrossRegion Wiring.shared_scope "MultiAccountAccessLogsBucket" "logs/")
    (initial Wiring.shared_scope Wiring.shared_buckets) =
  wireCrossRegion Wiring.shared_scope "MultiAccountAccessLogsBucket" "logs/"
    (initial Wiring.shared_scope Wiring.shared_buckets).
Proof.
  apply (wiring_twice_is_wiring_once
           "MultiAccountAccessLogsBucket" "logs/" Wiring.shared_scope
           (initial Wiring.shared_scope Wiring.shared_buckets)).
  visit_all.
Defined.

Lemma wiring_ignores_the_order_of_children_witness :
  wireCrossRegion Wiring.shared_scope "MultiAccountAccessLogsBucket" "logs/"
    (initial Wiring.shared_scope Wiring.shared_buckets) =
  wireCrossRegion (reverse Wiring.shared_scope) "MultiAccountAccessLogsBucket" "logs/"
    (initial Wiring.shared_scope Wiring.shared_buckets).
Proof.
  apply (wiring_ignores_the_order_of_children
           "MultiAccountAccessLogsBucket" "logs/" Wiring.shared_scope
           (reverse Wiring.shared_scope)
           (initial Wiring.shared_scope Wiring.shared_buckets)).
  - symmetry. apply reverse_Permutation.
  - visit_all.
Defined.

Lemma wiring_throws_on_a_support_stack_without_bucket_witness :
  exists msg,
    wireCrossRegion
      (Wiring.shared_scope ++
       {| constructorName := "CrossRegionSupportStack"; c_id := "Impostor";
          replicationBucket := None |} :: other_scope)
      "MultiAccountAccessLogsBucket" "logs/"
      (initial Wiring.shared_scope Wiring.shared_buckets) = Throw (TypeError msg).
Proof.
  apply (wiring_throws_on_a_support_stack_without_bucket
           "MultiAccountAccessLogsBucket" "logs/" Wiring.shared_scope other_scope
           {| constructorName := "CrossRegionSupportStack"; c_id := "Impostor";
              replicationBucket := None |}
           (initial Wiring.shared_scope Wiring.shared_buckets)).
  - visit_all.
  - reflexivity.
  - reflexivity.
Defined.

(** Among children the loop cannot visit, the order decides which TypeError
    is raised. *)
Example the_error_depends_on_the_order :
  let unbucketed :=
    {| constructorName := "CrossRegionSupportStack"; c_id := "A";
       replicationBucket := None |} in
  let childless :=
    {| constructorName := "CrossRegionSupportStack"; c_id := "B";
       replicationBucket :=
         Some {| b_id := "ReplicationBucket"; b_props := None;
                 bucketName := RefToken ["B"; "ReplicationBucket"; "Resource"];
                 defaultChild := None |} |} in
  wireCrossRegion [unbucketed; childless] "MultiAccountAccessLogsBucket" "logs/"
    (initial [] []) <>
  wireCrossRegion [childless; unbucketed] "MultiAccountAccessLogsBucket" "logs/"
    (initial [] []).
Proof. vm_compute. discriminate. Qed.

(** On the shared scope the constructor overwrites the logging destination
    of the support stack that was there before. *)
Example constructor_overwrites_the_earlier_destination :
  exists s w,
    new_CdkPipelineStack acme_env ["us-west-2"] "CdkPipelineStack"
      (initial Wiring.shared_scope Wiring.shared_buckets) = Ok (s, w) /\
    Wiring.shared_buckets !! 0 =
      Some {| loggingConfiguration :=
                Some {| destinationBucketName := Lit "audit-logs";
                        logFilePrefix := "s3/" |} |} /\
    cfnBuckets w !! 0 = Some (logging (Lit "MultiAccountAccessLogsBucket")) /\
    cfnBuckets w !! 1 = Wiring.shared_buckets !! 1.
Proof.
  eexists _, _. split.
  - apply constructor_run_on_wired_scope; [|visit_all].
    apply (bool_decide_unpack _). vm_compute. exact I.
  - repeat split; reflexivity.
Qed.

Example two_invocations :
  Container.invoke_all string (fun s => s)
    [ (LambdaB.JNull,
       {| LambdaB.functionName := "graphql"; LambdaB.awsRequestId := "1";
          LambdaB.logGroupName := "/aws/lambda/graphql";
          LambdaB.logStreamName := "2024/01/01/[$LATEST]a" |});
      (LambdaB.JBool true,
       {| LambdaB.functionName := "graphql"; LambdaB.awsRequestId := "2";
          LambdaB.logGroupName := "/aws/lambda/graphql";
          LambdaB.logStreamName := "2024/01/01/[$LATEST]b" |}) ]
    ["START"] =
  ([LambdaB.Fulfilled "2024/01/01/[$LATEST]a"; LambdaB.Fulfilled "2024/01/01/[$LATEST]b"],
   ["START"; "EVENT: " +:+ LambdaB.newline +:+ "null";
    "EVENT: " +:+ LambdaB.newline +:+ "true"]).
Proof. vm_compute. reflexivity. Qed.

(** ** Strings *)

Lemma append_nil_l (s : string) : EmptyString +:+ s = s.
Proof. reflexivity. Qed.

Lemma append_nil_r (s : string) : s +:+ EmptyString = s.
Proof. induction s as [|c s IH]; [done|]. by rewrite append_String, IH. Qed.

Lemma append_assoc (a b c : string) : (a +:+ b) +:+ c = a +:+ (b +:+ c).
Proof. induction a as [|x a IH]; [done|]. by rewrite !append_String, IH. Qed.

Lemma length_append (a b : string) :
  String.length (a +:+ b) = String.length a + String.length b.
Proof. induction a as [|x a IH]; [done|]. rewrite append_String. cbn. by rewrite IH. Qed.

(** [norm_strings]: bring the literal prefixes of appended strings to the
    front, character by character. *)
Ltac norm_strings := repeat (rewrite append_String || rewrite append_nil_l).

(** The texts of a list joined by a separator, one after the other. *)
Lemma join_cons (sep x y : string) (l : list string) :
  LambdaB.join sep (x :: y :: l) = x +:+ sep +:+ LambdaB.join sep (y :: l).
Proof.
  unfold LambdaB.join. cbn [foldl].
  revert y. induction l as [|z l IH]; intros y.
  - cbn. reflexivity.
  - cbn [foldl]. rewrite <- IH. f_equal. by rewrite !append_assoc.
Qed.

(** ** Reading what the serializer writes *)

Section Reading.
Import LambdaB JsonText.

Lemma blank_app (a b : string) : blank a -> blank b -> blank (a +:+ b).
Proof.
  induction a as [|c a IH]; [done|]. intros [-> Ha] Hb.
  rewrite append_String. split; [done|]. by apply IH.
Qed.

Lemma skip_ws_solid (s : string) : solid s -> skip_ws s = s.
Proof. destruct s as [|c s]; [done|]. cbn. by intros ->. Qed.

Lemma skip_ws_blank (w s : string) : blank w -> skip_ws (w +:+ s) = skip_ws s.
Proof.
  induction w as [|c w IH]; [done|]. intros [-> Hw].
  rewrite append_String. cbn. by apply IH.
Qed.

Lemma skip_ws_newline (s : string) : skip_ws (newline +:+ s) = skip_ws s.
Proof. reflexivity. Qed.

Lemma span_numeric_text (t rest : string) :
  all_numeric t = true -> delimited rest -> span_numeric (t +:+ rest) = (t, rest).
Proof.
  induction t as [|c t IH]; intros Ht Hrest.
  - rewrite append_nil_l. destruct rest as [|d rest]; [done|].
    cbn in *. by rewrite Hrest.
  - cbn in Ht. apply andb_prop in Ht as [Hc Ht].
    rewrite append_String. cbn. rewrite Hc, IH by done. reflexivity.
Qed.

(** Reading one character, by the way it is written. *)
Lemma read_string_plain (c : ascii) (rest : string) :
  Ascii.eqb c quote_char = false -> Ascii.eqb c backslash_char = false ->
  read_string (String c rest) = prepend c (read_string rest).
Proof. intros H1 H2. cbn [read_string]. rewrite H1, H2. reflexivity. Qed.

Lemma read_string_escaped (e d : ascii) (rest : string) :
  Ascii.eqb e "u" = false -> unescape e = Some d ->
  read_string (String backslash_char (String e rest)) = prepend d (read_string rest).
Proof.
  intros H1 H2. cbn [read_string].
  change (Ascii.eqb backslash_char quote_char) with false.
  change (Ascii.eqb backslash_char backslash_char) with true.
  cbv iota. rewrite H1, H2. reflexivity.
Qed.

Lemma read_string_unicode (h1 h2 h3 h4 d : ascii) (rest : string) :
  unicode h1 h2 h3 h4 = Some d ->
  read_string
    (String backslash_char (String "u" (String h1 (String h2 (String h3 (String h4 rest))))))
  = prepend d (read_string rest).
Proof.
  intros H. cbn [read_string].
  change (Ascii.eqb backslash_char quote_char) with false.
  change (Ascii.eqb backslash_char backslash_char) with true.
  change (Ascii.eqb "u" "u") with true.
  cbv iota. rewrite H. reflexivity.
Qed.

(** The three ways a character is escaped. *)
Lemma escape_cases (c : ascii) :
  (escape c = String c EmptyString /\
   Ascii.eqb c quote_char = false /\ Ascii.eqb c backslash_char = false) \/
  (exists e, escape c = String backslash_char (String e EmptyString) /\
             Ascii.eqb e "u" = false /\ unescape e = Some c) \/
  (exists h3 h4,
     escape c = String backslash_char (String "u" (String "0" (String "0"
                  (String h3 (String h4 EmptyString))))) /\
     unicode "0" "0" h3 h4 = Some c).
Proof.
  destruct c as [[] [] [] [] [] [] [] []];
    first [ left; repeat split; reflexivity
          | right; left; eexists; repeat split; reflexivity
          | right; right; do 2 eexists; split; reflexivity ].
Qed.

(** Reading back an escaped character. *)
Lemma read_string_escape (c : ascii) (s : string) :
  read_string (escape c +:+ s) = prepend c (read_string s).
Proof.
  destruct (escape_cases c) as [(E & H1 & H2)|[(e & E & H1 & H2)|(h3 & h4 & E & H)]];
    rewrite E; norm_strings.
  - by apply read_string_plain.
  - by apply read_string_escaped.
  - by apply read_string_unicode.
Qed.

Lemma read_string_escape_all (s rest : string) :
  read_string (escape_all s +:+ String quote_char rest) = Some (s, rest).
Proof.
  induction s as [|c s IH].
  - cbn. reflexivity.
  - cbn [escape_all]. rewrite append_assoc, read_string_escape, IH. reflexivity.
Qed.

Lemma read_string_quote (s rest : string) :
  read_string (escape_all s +:+ dquote +:+ rest) = Some (s, rest).
Proof. apply read_string_escape_all. Qed.

(** What a numeric character is not. *)
Lemma numeric_char (c : ascii) :
  is_numeric c = true ->
  is_ws c = false /\
  Ascii.eqb c "n" = false /\ Ascii.eqb c "t" = false /\ Ascii.eqb c "f" = false /\
  Ascii.eqb c quote_char = false /\
  Ascii.eqb c "[" = false /\ Ascii.eqb c "{" = false /\
  Ascii.eqb c "]" = false /\ Ascii.eqb c "}" = false.
Proof.
  destruct c as [[] [] [] [] [] [] [] []]; vm_compute; intros H;
    first [discriminate H | repeat split].
Qed.

Section RoundTrip.

Variable Number : Type.
Variable Number_toString : Number -> string.
Variable Number_parse : string -> option Number.

(** Numbers are written with numeric characters, at least one, and are read
    back from what they are written as. *)
Hypothesis toString_numeric : forall n, numeric_text (Number_toString n) = true.
Hypothesis parse_toString : forall n, Number_parse (Number_toString n) = Some n.

Variable gap : string.
Hypothesis blank_gap : blank gap.

Local Abbreviation text := (stringify Number Number_toString gap).
Local Abbreviation Json := (Json Number).

Lemma number_text (n : Number) :
  exists c t, Number_toString n = String c t /\
              is_numeric c = true /\ all_numeric (String c t) = true.
Proof.
  pose proof (toString_numeric n) as H. unfold numeric_text in H.
  destruct (Number_toString n) as [|c t]; [done|].
  exists c, t. split; [done|]. split; [|done].
  cbn in H. by apply andb_prop in H as [? _].
Qed.

Lemma text_opens (indent : string) (v : Json) (rest : string) :
  opens_value (text indent v +:+ rest).
Proof.
  destruct v as [|[]|n|s|[|x l]|[|kv l]]; cbn [stringify]; norm_strings;
    try (by vm_compute).
  destruct (number_text n) as (c & t & -> & Hc & _). norm_strings.
  apply numeric_char in Hc. cbn. tauto.
Qed.

Lemma opens_solid (s : string) : opens_value s -> solid s.
Proof. destruct s; [done|]. by intros [? _]. Qed.


Lemma stringify_array (indent : string) (x : Json) (xs : list Json) :
  text indent (JArray (x :: xs)) =
  "[" +:+ newline +:+ (indent +:+ gap) +:+
  join ("," +:+ newline +:+ (indent +:+ gap)) (map (text (indent +:+ gap)) (x :: xs)) +:+
  newline +:+ indent +:+ "]".
Proof. reflexivity. Qed.

Lemma stringify_object (indent : string) (kv : string * Json) (l : list (string * Json)) :
  text indent (JObject (kv :: l)) =
  "{" +:+ newline +:+ (indent +:+ gap) +:+
  join ("," +:+ newline +:+ (indent +:+ gap))
    (map (fun kv => quote (fst kv) +:+ ": " +:+ text (indent +:+ gap) (snd kv)) (kv :: l)) +:+
  newline +:+ indent +:+ "}".
Proof. reflexivity. Qed.

Lemma join_head (sep x : string) (l : list string) :
  exists t, join sep (x :: l) = x +:+ t.
Proof.
  destruct l as [|y l].
  - exists EmptyString. cbn. by rewrite append_nil_r.
  - eexists. apply join_cons.
Qed.

(** *** How [value_step] dispatches *)

Lemma value_step_quote items members (s r : string) :
  skip_ws s = dquote +:+ r ->
  value_step Number Number_parse items members s =
  match read_string r with
  | Some (str, r') => Some (JString str, r')
  | None => None
  end.
Proof. intros Hs. unfold value_step. rewrite Hs. reflexivity. Qed.

Lemma value_step_bracket items members (s r : string) :
  skip_ws s = "[" +:+ r ->
  value_step Number Number_parse items members s =
  match skip_ws r with
  | String d r' =>
      if Ascii.eqb d "]"%char then Some (JArray [], r')
      else match items r with
           | Some (vs, r'') => Some (JArray vs, r'')
           | None => None
           end
  | EmptyString => None
  end.
Proof. intros Hs. unfold value_step. rewrite Hs. reflexivity. Qed.

Lemma value_step_brace items members (s r : string) :
  skip_ws s = "{" +:+ r ->
  value_step Number Number_parse items members s =
  match skip_ws r with
  | String d r' =>
      if Ascii.eqb d "}"%char then Some (JObject [], r')
      else match members r with
           | Some (ms, r'') => Some (JObject ms, r'')
           | None => None
           end
  | EmptyString => None
  end.
Proof. intros Hs. unfold value_step. rewrite Hs. reflexivity. Qed.

Lemma value_step_number items members (s : string) (n : Number) (rest : string) :
  skip_ws s = Number_toString n +:+ rest -> delimited rest ->
  value_step Number Number_parse items members s = Some (JNumber n, rest).
Proof.
  intros Hs Hrest. unfold value_step. rewrite Hs.
  destruct (number_text n) as (c & t & E & Hc & Hall).
  pose proof (span_numeric_text _ _ Hall Hrest) as Hspan.
  rewrite <- E in Hspan.
  destruct (numeric_char c Hc) as (_ & H1 & H2 & H3 & H4 & H5 & H6 & _).
  rewrite E at 1. rewrite append_String.
  rewrite H1, H2, H3, H4, H5, H6.
  rewrite <- append_String, <- E, Hspan, parse_toString. reflexivity.
Qed.

Lemma items_step_last value items (s : string) (v : Json) (outer rest : string) :
  blank outer ->
  value s = Some (v, newline +:+ outer +:+ "]" +:+ rest) ->
  items_step Number value items s = Some ([v], rest).
Proof.
  intros Hb Hv. unfold items_step. rewrite Hv.
  rewrite skip_ws_newline, skip_ws_blank by done. reflexivity.
Qed.

Lemma items_step_more value items (s : string) (v : Json) (vs : list Json)
    (r rest : string) :
  value s = Some (v, "," +:+ r) ->
  items r = Some (vs, rest) ->
  items_step Number value items s = Some (v :: vs, rest).
Proof.
  intros Hv Hi. unfold items_step. rewrite Hv.
  change (skip_ws ("," +:+ r)) with (String ","%char r).
  change (Ascii.eqb "," ",") with true. cbv iota. rewrite Hi. reflexivity.
Qed.

Lemma members_step_last value members (s key : string) (v : Json)
    (r outer rest : string) :
  blank outer ->
  skip_ws s = quote key +:+ ": " +:+ r ->
  value (" " +:+ r) = Some (v, newline +:+ outer +:+ "}" +:+ rest) ->
  members_step Number value members s = Some ([(key, v)], rest).
Proof.
  intros Hb Hs Hv. unfold members_step. rewrite Hs.
  unfold quote. rewrite !append_assoc.
  change (dquote +:+ ?x) with (String quote_char x) at 1.
  change (Ascii.eqb quote_char quote_char) with true. cbv iota.
  rewrite read_string_quote.
  change (skip_ws (": " +:+ r)) with (String ":"%char (" " +:+ r)).
  change (Ascii.eqb ":" ":") with true. cbv iota.
  rewrite Hv.
  rewrite skip_ws_newline, skip_ws_blank by done. reflexivity.
Qed.

Lemma members_step_more value members (s key : string) (v : Json)
    (ms : list (string * Json)) (r r' rest : string) :
  skip_ws s = quote key +:+ ": " +:+ r ->
  value (" " +:+ r) = Some (v, "," +:+ r') ->
  members r' = Some (ms, rest) ->
  members_step Number value members s = Some ((key, v) :: ms, rest).
Proof.
  intros Hs Hv Hm. unfold members_step. rewrite Hs.
  unfold quote. rewrite !append_assoc.
  change (dquote +:+ ?x) with (String quote_char x) at 1.
  change (Ascii.eqb quote_char quote_char) with true. cbv iota.
  rewrite read_string_quote.
  change (skip_ws (": " +:+ r)) with (String ":"%char (" " +:+ r)).
  change (Ascii.eqb ":" ":") with true. cbv iota.
  rewrite Hv.
  change (skip_ws ("," +:+ r')) with (String ","%char r').
  change (Ascii.eqb "," ",") with true. cbv iota. rewrite Hm. reflexivity.
Qed.

Lemma join_opens_value (sep indent : string) (x : Json) (xs : list Json) (rest : string) :
  opens_value (join sep (map (text indent) (x :: xs)) +:+ rest).
Proof.
  cbn [map]. destruct (join_head sep (text indent x) (map (text indent) xs)) as [t ->].
  rewrite append_assoc. apply text_opens.
Qed.

Lemma join_opens_member (sep indent : string) (kv : string * Json)
    (l : list (string * Json)) (rest : string) :
  opens_value
    (join sep (map (fun kv => quote (fst kv) +:+ ": " +:+ text indent (snd kv)) (kv :: l))
     +:+ rest).
Proof.
  cbn [map].
  match goal with |- context [join sep (?x :: ?l)] =>
    destruct (join_head sep x l) as [t ->] end.
  unfold quote. rewrite !append_assoc.
  change (dquote +:+ ?x) with (String quote_char x) at 1.
  by vm_compute.
Qed.

(** *** What is written is read back *)

Lemma read_value_S (fuel : nat) (s : string) :
  read_value Number Number_parse (S fuel) s =
  value_step Number Number_parse
    (read_items Number Number_parse fuel) (read_members Number Number_parse fuel) s.
Proof. reflexivity. Qed.

Lemma read_items_S (fuel : nat) (s : string) :
  read_items Number Number_parse (S fuel) s =
  items_step Number
    (read_value Number Number_parse fuel) (read_items Number Number_parse fuel) s.
Proof. reflexivity. Qed.

Lemma read_members_S (fuel : nat) (s : string) :
  read_members Number Number_parse (S fuel) s =
  members_step Number
    (read_value Number Number_parse fuel) (read_members Number Number_parse fuel) s.
Proof. reflexivity. Qed.

Lemma read_back (fuel : nat) :
  (forall (v : Json) (indent rest s : string),
     blank indent -> delimited rest -> weight Number v <= fuel ->
     skip_ws s = text indent v +:+ rest ->
     read_value Number Number_parse fuel s = Some (v, rest)) /\
  (forall (x : Json) (xs : list Json) (inner outer rest s : string),
     blank inner -> blank outer ->
     list_sum (map (fun x => S (weight Number x)) (x :: xs)) <= fuel ->
     skip_ws s =
       join ("," +:+ newline +:+ inner) (map (text inner) (x :: xs)) +:+
       newline +:+ outer +:+ "]" +:+ rest ->
     read_items Number Number_parse fuel s = Some (x :: xs, rest)) /\
  (forall (kv : string * Json) (l : list (string * Json)) (inner outer rest s : string),
     blank inner -> blank outer ->
     list_sum (map (fun kv => S (weight Number (snd kv))) (kv :: l)) <= fuel ->
     skip_ws s =
       join ("," +:+ newline +:+ inner)
         (map (fun kv => quote (fst kv) +:+ ": " +:+ text inner (snd kv)) (kv :: l)) +:+
       newline +:+ outer +:+ "}" +:+ rest ->
     read_members Number Number_parse fuel s = Some (kv :: l, rest)).
Proof.
  induction fuel as [|fuel (IHvalue & IHitems & IHmembers)].
  { split; [|split].
    - intros v ? ? ? _ _ Hw _. destruct v; cbn in Hw; lia.
    - intros ? ? ? ? ? ? _ _ Hw _. cbn in Hw. lia.
    - intros ? ? ? ? ? ? _ _ Hw _. cbn in Hw. lia. }
  split; [|split].
  - intros v indent rest s Hindent Hrest Hw Hs.
    rewrite read_value_S.
    destruct v as [|[]|n|str|[|x xs]|[|kv l]].
    + unfold value_step. rewrite Hs. reflexivity.
    + unfold value_step. rewrite Hs. reflexivity.
    + unfold value_step. rewrite Hs. reflexivity.
    + by apply value_step_number.
    + cbn [stringify] in Hs. unfold quote in Hs. rewrite !append_assoc in Hs.
      rewrite (value_step_quote _ _ _ _ Hs), read_string_quote. reflexivity.
    + unfold value_step. rewrite Hs. reflexivity.
    + assert (blank (indent +:+ gap)) as Hinner by by apply blank_app.
      rewrite stringify_array in Hs. set (inner := indent +:+ gap) in *.
      rewrite !append_assoc in Hs.
      rewrite (value_step_bracket _ _ _ _ Hs).
      match goal with |- context [read_items _ _ _ ?r] => set (R := r) end.
      match type of Hs with _ = _ +:+ _ +:+ _ +:+ ?t => 
        assert (skip_ws R = t) as HR end.
      { unfold R. rewrite skip_ws_newline, skip_ws_blank by done.
        apply skip_ws_solid, opens_solid, join_opens_value. }
      assert (opens_value (skip_ws R)) as Hopen.
      { rewrite HR. apply join_opens_value. }
      rewrite (IHitems x xs inner indent rest R); [|done|done| |done].
      * destruct (skip_ws R) as [|d r]; [done|].
        destruct Hopen as (_ & -> & _). reflexivity.
      * cbn [weight] in Hw. cbn [map list_sum fold_right] in *. lia.
    + unfold value_step. rewrite Hs. reflexivity.
    + assert (blank (indent +:+ gap)) as Hinner by by apply blank_app.
      rewrite stringify_object in Hs. set (inner := indent +:+ gap) in *.
      rewrite !append_assoc in Hs.
      rewrite (value_step_brace _ _ _ _ Hs).
      match goal with |- context [read_members _ _ _ ?r] => set (R := r) end.
      match type of Hs with _ = _ +:+ _ +:+ _ +:+ ?t => 
        assert (skip_ws R = t) as HR end.
      { unfold R. rewrite skip_ws_newline, skip_ws_blank by done.
        apply skip_ws_solid, opens_solid, join_opens_member. }
      assert (opens_value (skip_ws R)) as Hopen.
      { rewrite HR. apply join_opens_member. }
      rewrite (IHmembers kv l inner indent rest R); [|done|done| |done].
      * destruct (skip_ws R) as [|d r]; [done|].
        destruct Hopen as (_ & _ & ->). reflexivity.
      * cbn [weight] in Hw. cbn [map list_sum fold_right] in *. lia.
  - intros x xs inner outer rest s Hinner Houter Hw Hs.
    rewrite read_items_S.
    destruct xs as [|y ys]; cbn [map list_sum fold_right] in Hw.
    + change (join _ (map _ [x])) with (text inner x) in Hs.
      apply items_step_last with (outer := outer); [done|].
      apply IHvalue with (indent := inner); [done|done|lia|done].
    + cbn [map] in Hs. rewrite join_cons, !append_assoc in Hs.
      eapply items_step_more.
      * apply IHvalue with (indent := inner); [done|done|lia|]. exact Hs.
      * apply IHitems with (inner := inner) (outer := outer); [done|done| |].
        { cbn [map list_sum fold_right]. lia. }
        rewrite skip_ws_newline, skip_ws_blank by done.
        apply skip_ws_solid, opens_solid. apply (join_opens_value _ inner y ys).
  - intros [key v] l inner outer rest s Hinner Houter Hw Hs.
    rewrite read_members_S.
    destruct l as [|kv' l']; cbn [map list_sum fold_right snd] in Hw.
    + change (join _ (map _ [(key, v)])) with (quote key +:+ ": " +:+ text inner v) in Hs.
      rewrite !append_assoc in Hs.
      eapply members_step_last with (outer := outer); [done|exact Hs|].
      apply IHvalue with (indent := inner); [done|done|lia|].
      rewrite (skip_ws_blank " ") by done.
      apply skip_ws_solid, opens_solid, text_opens.
    + cbn [map fst snd] in Hs. rewrite join_cons, !append_assoc in Hs.
      eapply members_step_more.
      * exact Hs.
      * apply IHvalue with (indent := inner); [done|done|lia|].
        rewrite (skip_ws_blank " ") by done.
        apply skip_ws_solid, opens_solid, text_opens.
      * apply IHmembers with (inner := inner) (outer := outer); [done|done| |].
        { cbn [map list_sum fold_right]. lia. }
        rewrite skip_ws_newline, skip_ws_blank by done.
        apply skip_ws_solid, opens_solid. apply (join_opens_member _ inner kv' l').
Qed.


(** *** The fuel a text needs *)

(** Induction on JSON values, through the lists of items and members. *)
Lemma Json_nested_ind (P : Json -> Prop) :
  P JNull ->
  (forall b, P (JBool b)) ->
  (forall n, P (JNumber n)) ->
  (forall s, P (JString s)) ->
  (forall items, Forall P items -> P (JArray items)) ->
  (forall properties, Forall (fun kv => P (snd kv)) properties -> P (JObject properties)) ->
  forall v, P v.
Proof.
  intros Hnull Hbool Hnumber Hstring Harray Hobject.
  fix IH 1. intros [|b|n|s|items|properties].
  - exact Hnull.
  - apply Hbool.
  - apply Hnumber.
  - apply Hstring.
  - apply Harray. induction items as [|x items IHitems].
    + constructor.
    + constructor; [apply IH | exact IHitems].
  - apply Hobject. induction properties as [|[k x] properties IHproperties].
    + constructor.
    + constructor; [apply IH | exact IHproperties].
Qed.

Lemma list_sum_cons (n : nat) (l : list nat) : list_sum (n :: l) = n + list_sum l.
Proof. reflexivity. Qed.

Lemma length_join (sep x : string) (l : list string) :
  String.length (join sep (x :: l)) =
  String.length x + list_sum (map (fun y => String.length sep + String.length y) l).
Proof.
  revert x. induction l as [|y l IH]; intros x.
  - cbn. lia.
  - rewrite join_cons, !length_append, IH. cbn [map]. rewrite list_sum_cons. lia.
Qed.

Lemma weight_le_length (v : Json) :
  forall indent, weight Number v <= String.length (text indent v).
Proof.
  induction v as [|b|n|s|items IH|properties IH] using Json_nested_ind; intros indent.
  - cbn. lia.
  - destruct b; cbn; lia.
  - cbn [stringify weight]. destruct (number_text n) as (c & t & -> & _). cbn. lia.
  - cbn [stringify weight]. unfold quote. rewrite !length_append. cbn. lia.
  - destruct items as [|x xs]; [cbn; lia|].
    rewrite stringify_array.
    set (inner := indent +:+ gap). set (sep := "," +:+ newline +:+ inner).
    assert (1 <= String.length sep) as Hsep.
    { unfold sep. rewrite length_append. cbn. lia. }
    rewrite !length_append. cbn [map]. rewrite length_join.
    apply Forall_cons in IH as [Hx Hxs]. specialize (Hx inner).
    assert (list_sum (map (fun x => S (weight Number x)) xs) <=
            list_sum (map (fun y => String.length sep + String.length y)
                          (map (text inner) xs))) as Hsum.
    { clear Hx. induction Hxs as [|y ys Hy _ IHys]; [done|].
      specialize (Hy inner). cbn [map]. rewrite !list_sum_cons. lia. }
    cbn [weight map]. rewrite list_sum_cons. cbn [String.length]. lia.
  - destruct properties as [|[k x] l]; [cbn; lia|].
    rewrite stringify_object.
    set (inner := indent +:+ gap). set (sep := "," +:+ newline +:+ inner).
    assert (1 <= String.length sep) as Hsep.
    { unfold sep. rewrite length_append. cbn. lia. }
    rewrite !length_append. cbn [map]. rewrite length_join.
    apply Forall_cons in IH as [Hx Hl]. cbn [snd fst] in *.
    specialize (Hx inner).
    assert (list_sum (map (fun kv => S (weight Number (snd kv))) l) <=
            list_sum (map (fun y => String.length sep + String.length y)
                          (map (fun kv => quote (fst kv) +:+ ": " +:+
                                          text inner (snd kv)) l))) as Hsum.
    { clear Hx. induction Hl as [|y ys Hy _ IHys]; [done|].
      specialize (Hy inner). cbn [map]. rewrite !list_sum_cons, !length_append. lia. }
    cbn [weight map snd]. rewrite list_sum_cons, !length_append.
    cbn [String.length]. lia.
Qed.

(** Reading the text of a value gives the value back. *)
Lemma JSON_read_stringify (v : Json) :
  JSON_read Number Number_parse (text EmptyString v) = Some v.
Proof.
  unfold JSON_read.
  destruct (read_back (S (String.length (text EmptyString v)))) as (Hvalue & _).
  rewrite (Hvalue v EmptyString EmptyString).
  - reflexivity.
  - done.
  - done.
  - pose proof (weight_le_length v EmptyString). lia.
  - rewrite append_nil_r. apply skip_ws_solid, opens_solid.
    rewrite <- (append_nil_r (text _ _)). apply text_opens.
Qed.


(** *** The serializer on JSON values *)

Lemma of_json_array (items : list Json) :
  Js.of_json Number (JArray items) = Js.VArray (map (Js.of_json Number) items).
Proof. reflexivity. Qed.

Lemma of_json_object (properties : list (string * Json)) :
  Js.of_json Number (JObject properties) =
  Js.VObject (map (fun kv => (fst kv, Js.of_json Number (snd kv))) properties).
Proof. reflexivity. Qed.

Lemma serialize_array (indent : string) (items : list (Js.Value Number)) :
  Js.serialize Number Number_toString gap indent (Js.VArray items) =
  match Js.array_texts
          (map (Js.serialize Number Number_toString gap (indent +:+ gap)) items) with
  | Throw e => Throw e
  | Ok [] => Ok (Some "[]")
  | Ok texts =>
      Ok (Some ("[" +:+ newline +:+ (indent +:+ gap) +:+
                join ("," +:+ newline +:+ (indent +:+ gap)) texts +:+
                newline +:+ indent +:+ "]"))
  end.
Proof. reflexivity. Qed.

Lemma serialize_object (indent : string) (properties : list (string * Js.Value Number)) :
  Js.serialize Number Number_toString gap indent (Js.VObject properties) =
  match Js.member_texts
          (map (fun kv => (fst kv,
                           Js.serialize Number Number_toString gap (indent +:+ gap) (snd kv)))
               properties) with
  | Throw e => Throw e
  | Ok [] => Ok (Some "{}")
  | Ok texts =>
      Ok (Some ("{" +:+ newline +:+ (indent +:+ gap) +:+
                join ("," +:+ newline +:+ (indent +:+ gap)) texts +:+
                newline +:+ indent +:+ "}"))
  end.
Proof. reflexivity. Qed.

(** On a JSON value the serializer does not throw and writes the text of
    the value. *)
Lemma serialize_of_json (v : Json) :
  forall indent,
    Js.serialize Number Number_toString gap indent (Js.of_json Number v) =
    Ok (Some (text indent v)).
Proof.
  induction v as [|b|n|s|items IH|properties IH] using Json_nested_ind; intros indent.
  - reflexivity.
  - by destruct b.
  - reflexivity.
  - reflexivity.
  - rewrite of_json_array, serialize_array.
    assert (Js.array_texts
              (map (Js.serialize Number Number_toString gap (indent +:+ gap))
                   (map (Js.of_json Number) items)) =
            Ok (map (text (indent +:+ gap)) items)) as ->.
    { induction IH as [|x xs Hx _ IHxs]; [done|].
      cbn [map Js.array_texts]. rewrite Hx, IHxs. reflexivity. }
    by destruct items.
  - rewrite of_json_object, serialize_object.
    assert (Js.member_texts
              (map (fun kv => (fst kv,
                               Js.serialize Number Number_toString gap (indent +:+ gap)
                                 (snd kv)))
                   (map (fun kv => (fst kv, Js.of_json Number (snd kv))) properties)) =
            Ok (map (fun kv => quote (fst kv) +:+ ": " +:+ text (indent +:+ gap) (snd kv))
                    properties)) as ->.
    { induction IH as [|[k x] xs Hx _ IHxs]; [done|].
      cbn [map Js.member_texts fst snd] in *. rewrite Hx, IHxs. reflexivity. }
    by destruct properties.
Qed.

End RoundTrip.

(** Handler B on a JSON event and a context is the handler on arbitrary
    arguments at that event and context. *)
Lemma handler_on_json
    (Number : Type) (Number_toString : Number -> string)
    (event : Json Number) (context : Context) (out : list string) :
  Js.handler Number Number_toString (Js.of_json Number event) (Some context) out =
  handler Number Number_toString event context out.
Proof.
  unfold Js.handler, Js.JSON_stringify. rewrite serialize_of_json. reflexivity.
Qed.

(** *** Integers in decimal *)

Lemma string_of_uint_numeric (d : Decimal.uint) :
  all_numeric (DecimalString.NilEmpty.string_of_uint d) = true.
Proof. induction d; cbn; done. Qed.

Lemma Z_toString_numeric (z : Z) : numeric_text (Z_toString z) = true.
Proof.
  unfold Z_toString, numeric_text. destruct z as [|p|p]; cbn [Z.to_int].
  - reflexivity.
  - cbn [DecimalString.NilEmpty.string_of_int].
    pose proof (string_of_uint_numeric (Pos.to_uint p)) as H.
    pose proof (DecimalPos.Unsigned.to_uint_nonnil p) as Hnil.
    by destruct (Pos.to_uint p).
  - cbn [DecimalString.NilEmpty.string_of_int].
    cbn [all_numeric]. apply string_of_uint_numeric.
Qed.

Lemma Z_parse_toString (z : Z) : Z_parse (Z_toString z) = Some z.
Proof.
  unfold Z_parse, Z_toString.
  rewrite DecimalString.NilEmpty.isi. cbn. by rewrite DecimalZ.of_to.
Qed.

End Reading.

(** *** When the serializer throws *)

Section Throwing.
Import LambdaB.

Variable Number : Type.
Variable Number_toString : Number -> string.

Local Abbreviation Value := (Js.Value Number).

(** Induction on values, through the lists of items and properties. *)
Lemma Value_nested_ind (P : Value -> Prop) :
  P Js.VUndefined -> P Js.VNull -> (forall b, P (Js.VBool b)) ->
  (forall n, P (Js.VNumber n)) -> P Js.VNonFinite -> (forall z, P (Js.VBigInt z)) ->
  (forall s, P (Js.VString s)) -> P Js.VSymbol -> P Js.VFunction ->
  (forall items, Forall P items -> P (Js.VArray items)) ->
  (forall properties,
     Forall (fun kv => P (snd kv)) properties -> P (Js.VObject properties)) ->
  P Js.VCircular ->
  forall v, P v.
Proof.
  intros Hundefined Hnull Hbool Hnumber Hnonfinite Hbigint Hstring Hsymbol Hfunction
    Harray Hobject Hcircular.
  fix IH 1. intros [| |b|n| |z|s| | |items|properties|].
  - exact Hundefined.
  - exact Hnull.
  - apply Hbool.
  - apply Hnumber.
  - exact Hnonfinite.
  - apply Hbigint.
  - apply Hstring.
  - exact Hsymbol.
  - exact Hfunction.
  - apply Harray. induction items as [|x items IHitems].
    + constructor.
    + constructor; [apply IH | exact IHitems].
  - apply Hobject. induction properties as [|[k x] properties IHproperties].
    + constructor.
    + constructor; [apply IH | exact IHproperties].
  - exact Hcircular.
Qed.

Lemma array_texts_throws (results : list (Result (option string))) :
  (exists e, Js.array_texts results = Throw e) <->
  (exists e, Throw e ∈ results).
Proof.
  induction results as [|[text|e] results IH].
  - split; intros [e H]; [done|]. by apply elem_of_nil in H.
  - cbn [Js.array_texts]. split.
    + intros [e H]. destruct (Js.array_texts results) as [texts|e'] eqn:E; [done|].
      destruct IH as [IH _]. destruct IH as [e'' He]; [by eexists|].
      exists e''. by apply list_elem_of_further.
    + intros [e H]. apply elem_of_cons in H as [H|H]; [done|].
      destruct IH as [_ IH]. destruct IH as [e' He]; [by eexists|].
      rewrite He. by eexists.
  - split; intros _.
    + exists e. apply list_elem_of_here.
    + by exists e.
Qed.

Lemma member_texts_throws (results : list (string * Result (option string))) :
  (exists e, Js.member_texts results = Throw e) <->
  (exists key e, (key, Throw e) ∈ results).
Proof.
  induction results as [|[key [[text|]|e]] results IH].
  - split; [intros [e H]; done|]. intros (key & e & H). by apply elem_of_nil in H.
  - cbn [Js.member_texts]. split.
    + intros [e H]. destruct (Js.member_texts results) as [texts|e'] eqn:E; [done|].
      destruct IH as [IH _]. destruct IH as (key' & e'' & He); [by eexists|].
      exists key', e''. by apply list_elem_of_further.
    + intros (key' & e & H). apply elem_of_cons in H as [H|H]; [done|].
      destruct IH as [_ IH]. destruct IH as [e' He]; [by eexists; eexists|].
      rewrite He. by eexists.
  - cbn [Js.member_texts]. rewrite IH. split.
    + intros (key' & e & H). exists key', e. by apply list_elem_of_further.
    + intros (key' & e & H). apply elem_of_cons in H as [H|H]; [done|].
      by exists key', e.
  - split; intros _.
    + exists key, e. apply list_elem_of_here.
    + by exists e.
Qed.

(** The serializer throws exactly on the values that hold a BigInt or a
    circular reference. *)
Lemma serialize_throws (gap : string) (v : Value) :
  forall indent,
    (exists e, Js.serialize Number Number_toString gap indent v = Throw e) <->
    Js.unserializable Number v.
Proof.
  induction v as [| |b|n| |z|s| | |items IH|properties IH|] using Value_nested_ind;
    intros indent;
    try (split; [intros [e H]; try destruct b; discriminate H | intros H; inversion H]).
  - split; [intros _; constructor | intros _; by eexists].
  - change (Js.serialize Number Number_toString gap indent (Js.VArray items))
      with (match Js.array_texts
                    (map (Js.serialize Number Number_toString gap (indent +:+ gap)) items) with
            | Throw e => Throw e
            | Ok [] => Ok (Some "[]")
            | Ok texts =>
                Ok (Some ("[" +:+ newline +:+ (indent +:+ gap) +:+
                          join ("," +:+ newline +:+ (indent +:+ gap)) texts +:+
                          newline +:+ indent +:+ "]"))
            end).
    split.
    + intros [e H].
      destruct (Js.array_texts _) as [[|? ?]|e'] eqn:E; try discriminate H.
      destruct (proj1 (array_texts_throws _) (ex_intro _ _ E)) as [e'' He].
      apply list_elem_of_fmap in He as (x & Hx & Hin).
      apply Js.unserializable_item with (v := x); [done|].
      rewrite Forall_forall in IH. apply (IH x Hin (indent +:+ gap)). by eexists.
    + intros H. inversion H as [| |items' x Hin Hx|]; subst.
      rewrite Forall_forall in IH.
      apply (IH x Hin (indent +:+ gap)) in Hx as [e He].
      destruct (proj2 (array_texts_throws
                  (map (Js.serialize Number Number_toString gap (indent +:+ gap)) items)))
        as [e' ->]; [|by eexists].
      exists e. apply list_elem_of_fmap. exists x. by rewrite He.
  - change (Js.serialize Number Number_toString gap indent (Js.VObject properties))
      with (match Js.member_texts
                    (map (fun kv =>
                            (fst kv,
                             Js.serialize Number Number_toString gap (indent +:+ gap) (snd kv)))
                         properties) with
            | Throw e => Throw e
            | Ok [] => Ok (Some "{}")
            | Ok texts =>
                Ok (Some ("{" +:+ newline +:+ (indent +:+ gap) +:+
                          join ("," +:+ newline +:+ (indent +:+ gap)) texts +:+
                          newline +:+ indent +:+ "}"))
            end).
    split.
    + intros [e H].
      destruct (Js.member_texts _) as [[|? ?]|e'] eqn:E; try discriminate H.
      destruct (proj1 (member_texts_throws _) (ex_intro _ _ E)) as (key & e'' & He).
      apply list_elem_of_fmap in He as (kv & Hkv & Hin).
      apply Js.unserializable_property with (kv := kv); [done|].
      rewrite Forall_forall in IH. apply (IH kv Hin (indent +:+ gap)).
      exists e''. by inversion Hkv.
    + intros H. inversion H as [| | |properties' kv Hin Hkv]; subst.
      rewrite Forall_forall in IH.
      apply (IH kv Hin (indent +:+ gap)) in Hkv as [e He].
      destruct (proj2 (member_texts_throws
                  (map (fun kv =>
                          (fst kv,
                           Js.serialize Number Number_toString gap (indent +:+ gap) (snd kv)))
                       properties)))
        as [e' ->]; [|by eexists].
      exists (fst kv), e. apply list_elem_of_fmap. exists kv. by rewrite He.
  - split; [intros _; constructor | intros _; by eexists].
Qed.

(** The handler rejects, and logs nothing, exactly when the event cannot be
    serialized. *)
Lemma handler_rejects_unserializable
    (event : Value) (context : option Context) (out : list string) :
  Js.unserializable Number event <->
  exists e, Js.handler Number Number_toString event context out = (Rejected e, out).
Proof.
  rewrite <- (serialize_throws "  " event EmptyString).
  unfold Js.handler, Js.JSON_stringify.
  destruct (Js.serialize _ _ _ _ event) as [text|e] eqn:E.
  - split; [intros [e H]; discriminate H|].
    intros [e H]. destruct context; inversion H as [[He Hout]].
    + apply (f_equal length) in Hout. rewrite length_app in Hout. cbn in Hout. lia.
  - split; intros _; by eexists.
Qed.

End Throwing.

(** ** Lambda handler B on an invocation *)



(** The line the handler writes for a small event. *)
Example handler_writes_the_event :
  Js.handler Z JsonText.Z_toString
    (Js.of_json Z
       (LambdaB.JObject
          [ ("path", LambdaB.JString "/graphql"); ("retries", LambdaB.JNumber 3%Z) ]))
    (Some JsonText.graphql_context)
    [] =
  (LambdaB.Fulfilled "2024/01/01/[$LATEST]abcdef",
   ["EVENT: " +:+ LambdaB.newline +:+
    "{" +:+ LambdaB.newline +:+
    "  " +:+ LambdaB.dquote +:+ "path" +:+ LambdaB.dquote +:+ ": " +:+
             LambdaB.dquote +:+ "/graphql" +:+ LambdaB.dquote +:+ "," +:+ LambdaB.newline +:+
    "  " +:+ LambdaB.dquote +:+ "retries" +:+ LambdaB.dquote +:+ ": 3" +:+ LambdaB.newline +:+
    "}"]).
Proof. vm_compute. reflexivity. Qed.


(** An event that holds a BigInt is rejected in the same way. *)
Example handler_rejects_a_bigint :
  Js.handler Z JsonText.Z_toString
    (Js.VArray [ Js.VNumber 1%Z; Js.VBigInt 2 ])
    (Some JsonText.graphql_context)
    [] =
  (LambdaB.Rejected (TypeError "Do not know how to serialize a BigInt"), []).
Proof. vm_compute. reflexivity. Qed.

(** Without a context the event is logged and the promise is rejected. *)
Example handler_rejects_without_context :
  Js.handler Z JsonText.Z_toString Js.VNull None [] =
  (LambdaB.Rejected
     (TypeError "Cannot read properties of undefined (reading 'logStreamName')"),
   ["EVENT: " +:+ LambdaB.newline +:+ "null"]).
Proof. vm_compute. reflexivity. Qed.

(** An event without a JSON form, such as [undefined], is logged as
    undefined. *)
Example handler_logs_undefined :
  Js.handler Z JsonText.Z_toString Js.VUndefined
    (Some JsonText.graphql_context)
    [] =
  (LambdaB.Fulfilled "2024/01/01/[$LATEST]abcdef", ["EVENT: " +:+ LambdaB.newline +:+ "undefined"]).
Proof. vm_compute. reflexivity. Qed.
